(** * data_prepare.py: note names, frequencies and the augmentation pipeline

    A shallow embedding of [src/data_prepare.py].

    - Python [int] is [Z]; Python [str] is [string].
    - A Python [float] is read as the real number ([R]) it approximates:
      rounding, and the infinity a product can overflow to, are outside
      the model.  Where binary64 makes Python raise instead of returning a
      number, the model raises too: [OverflowError] for an [int] too large
      to convert and for [pow(2, x)] from x = 1024 on, [ValueError]
      outside the domain of [math.log]; [pow(2, x)] is 0 where it
      underflows (x <= -1075) and [Rpower 2 x] in between.
    - A [dict] is a [gmap]; a missing key raises [KeyError].
    - Exceptions are values of [exn], carried by the [result] monad.
    - The outside world ([os.system], [random], [numpy.random], [print],
      files) is an explicit environment and an event trace. *)

From Stdlib Require Import ZArith Reals Lra Lia List Ascii String.
From Stdlib Require Import DecimalString DecimalZ Permutation.
From stdpp Require Import gmap strings list fin_maps.

Local Open Scope string_scope.
Local Open Scope Z_scope.

(** ** Exceptions *)

Inductive exn : Type :=
| AttributeError           (* [None.group(...)] *)
| KeyError (key : string)  (* missing dict key *)
| IndexError               (* list index out of range *)
| ValueError               (* math domain error *)
| ZeroDivisionError        (* division by zero *)
| OverflowError.           (* a result out of the range of [float] *)

Inductive result (A : Type) : Type :=
| Ok (a : A)
| Raise (e : exn).
Arguments Ok {A} a.
Arguments Raise {A} e.

Definition rbind {A B} (r : result A) (k : A -> result B) : result B :=
  match r with
  | Ok a => k a
  | Raise e => Raise e
  end.

#[global] Instance result_ret : MRet result := @Ok.
#[global] Instance result_bind : MBind result := fun A B k r => rbind r k.

Definition returns {A} (r : result A) : Prop := exists a, r = Ok a.

(** ** Strings *)

Definition newline : ascii := ascii_of_nat 10.

(** [c in cls], for a character class written as the string of its members. *)
Definition in_class (cls : string) (c : ascii) : bool :=
  existsb (Ascii.eqb c) (list_ascii_of_string cls).

(** [str.lower()] on ASCII text. *)
Definition lower_ascii (c : ascii) : ascii :=
  let n := nat_of_ascii c in
  if ((65 <=? n)%nat && (n <=? 90)%nat)%bool then ascii_of_nat (n + 32) else c.

Fixpoint lower (s : string) : string :=
  match s with
  | EmptyString => EmptyString
  | String c s' => String (lower_ascii c) (lower s')
  end.

(** [int(d)] for a one-character string holding a decimal digit. *)
Definition int_of_digit (d : ascii) : Z := Z.of_nat (nat_of_ascii d) - 48.

(** ** class Note *)

Module Note.

Definition values : gmap string Z :=
  <["b" := 11]> (<["a" := 9]> (<["g" := 7]> (<["f" := 5]>
  (<["e" := 4]> (<["d" := 2]> (<["c" := 0]> ∅)))))).

Definition names : list string :=
  ["C"; "Cs"; "D"; "Ds"; "E"; "F"; "Fs"; "G"; "Gs"; "A"; "As"; "B"].

(** [$] without [re.MULTILINE]: the end of the string, or just before a
    newline that is the last character of the string. *)
Definition at_dollar (rest : string) : bool :=
  match rest with
  | EmptyString => true
  | String c EmptyString => Ascii.eqb c newline
  | _ => false
  end.

(** The tail [([0-9])$] of the pattern, with the groups matched so far. *)
Definition match_octave (g1 : ascii) (g2 : string) (rest : string)
  : option (ascii * string * ascii) :=
  match rest with
  | String d rest' =>
      if (in_class "0123456789" d && at_dollar rest')%bool
      then Some (g1, g2, d) else None
  | EmptyString => None
  end.

(** [re.match('^([ABCDEFGabcdefg])([b#s]?)([0-9])$', str)]: the three
    groups, or [None].  The optional group is greedy: the accidental is
    tried first, the empty match second. *)
Definition re_match (str : string) : option (ascii * string * ascii) :=
  match str with
  | String c rest =>
      if in_class "ABCDEFGabcdefg" c then
        match rest with
        | String a rest' =>
            if in_class "b#s" a then
              match match_octave c (String a EmptyString) rest' with
              | Some m => Some m
              | None => match_octave c EmptyString rest
              end
            else match_octave c EmptyString rest
        | EmptyString => None
        end
      else None
  | EmptyString => None
  end.

(** [Note.note(str)]: the MIDI note number. *)
Definition note (str : string) : result Z :=
  match re_match str with
  | None => Raise AttributeError
  | Some (g1, g2, g3) =>
      let note := lower (String g1 EmptyString) in
      let acc := lower g2 in
      let octave := int_of_digit g3 in
      let shift := 0 in
      let shift :=
        if String.eqb acc "b" then shift - 1
        else if String.eqb acc "#" then shift + 1
        else if String.eqb acc "s" then shift + 1
        else shift in
      match values !! note with
      | None => Raise (KeyError note)
      | Some v => Ok (((octave + 1) * 12) + v + shift)
      end
  end.

(** [Note.notes(note_list)]: [map(cls.note, note_list)], each element with
    its own outcome. *)
Definition notes (note_list : list string) : list (result Z) :=
  map note note_list.

End Note.

(** ** Numbers and their renderings *)

(** A Python number that is either an [int] or a [float]. *)
Inductive pynum : Type :=
| PInt (z : Z)
| PFloat (x : R).

(** [str(n)] for an [int] (and for a numpy integer): decimal digits, with a
    leading [-] for a negative number. *)
Definition str_int (z : Z) : string := NilZero.string_of_int (Z.to_int z).

(** [range(a, b)]. *)
Definition range (a b : Z) : list Z :=
  map (fun i => a + Z.of_nat i) (seq 0 (Z.to_nat (b - a))).

(** [enumerate(l, start)]. *)
Fixpoint enumerate_from {A} (start : Z) (l : list A) : list (Z * A) :=
  match l with
  | [] => []
  | x :: l' => (start, x) :: enumerate_from (start + 1) l'
  end.

Definition enumerate {A} (l : list A) : list (Z * A) := enumerate_from 0 l.

(** [math.log(x, base)]: the quotient of the natural logarithms, and a
    [ValueError] (math domain error) for an argument that is not positive. *)
Definition math_log (x base : R) : result R :=
  if Rle_dec x 0 then Raise ValueError
  else if Rle_dec base 0 then Raise ValueError
  else Ok (ln x / ln base)%R.

(** [n / 12.0] starts by converting the [int] [n] to a [float]: beyond
    the range of binary64, "int too large to convert to float". *)
Definition float_of_int (n : Z) : result R :=
  if Z.abs n <? 2 ^ 1024 - 2 ^ 970 then Ok (IZR n) else Raise OverflowError.

(** [pow(2, x)] for a [float] [x]: "Numerical result out of range" once
    2^x is out of the range of binary64, and 0.0 where it underflows. *)
Definition pow2 (x : R) : result R :=
  if Rle_dec 1024 x then Raise OverflowError
  else if Rle_dec x (-1075) then Ok 0%R
  else Ok (Rpower 2 x).

(** ** The outside world *)

(** The one-note score handed to [midiutil]. *)
Inductive MidiEvent : Type :=
| AddTempo (track time tempo : Z)
| AddProgramChange (track channel time program : Z)
| AddNote (track channel pitch time duration volume : Z).

Record MIDIFile : Type := mkMIDIFile {
  numTracks : Z;
  adjust_origin : bool;
  eventList : list MidiEvent
}.

(** The arguments formatted into the [sox] command line
    ["sox -t raw -r 44100 -e signed -b 16 -c 2 %s -r %s -b %s %s norm -0.1
      pitch %s remix 2 trim %f %f"]. *)
Record SoxArgs : Type := mkSox {
  sox_input : string;
  sox_rate : Z;
  sox_bits : Z;
  sox_output : string;
  sox_pitch : pynum;
  sox_trim_start : R;
  sox_trim_duration : R
}.

(** A shell command given to [os.system]. *)
Inductive Cmd : Type :=
| Fluidsynth (soundfont mid wav : string)
    (* "fluidsynth -l -i -a file %s %s -F %s -r 44100" *)
| Sox (a : SoxArgs).

(** What the program does to the world, in order. *)
Inductive Event : Type :=
| WriteFile (path : string) (content : MIDIFile)
| System (cmd : Cmd) (status : Z)
| PrintWriting (wav_file : string) (resample_hz resample_bits : Z)
    (shift_cents : pynum)
| PrintDot.

(** What the world answers.  [exit_status] is the status [os.system]
    returns for a command, given what happened before; [randint] is
    [numpy.random.randint(low, high, size)] and [shuffle] the permutation
    [random.shuffle] applies, each at a given state of its generator;
    [format_3f] is the ["%.3f"] rendering of a float. *)
Record Env : Type := mkEnv {
  exit_status : list Event -> Cmd -> Z;
  randint : nat -> Z -> Z -> nat -> list Z;
  shuffle : nat -> list Z -> list Z;
  format_3f : R -> string
}.

(** The contract of the two random sources. *)
Record env_ok (env : Env) : Prop := mkEnvOk {
  randint_length : forall g low high size,
    length (randint env g low high size) = size;
  randint_range : forall g low high size x,
    low < high -> In x (randint env g low high size) -> low <= x < high;
  shuffle_perm : forall g l, Permutation (shuffle env g l) l
}.

(** The mutable state: the two generators, the module-level list
    [GM_PATCHES] (shuffled in place) and the trace of events. *)
Record World : Type := mkWorld {
  py_random : nat;
  np_random : nat;
  GM_PATCHES : list Z;
  trace : list Event
}.

Definition GM_PATCHES_init : list Z :=
  [0; 3; 6; 11; 16; 19; 22; 24; 26; 30; 32; 33; 40; 42; 48; 51; 52; 56; 57;
   61; 65; 66; 71; 73; 78].

Definition initial_world : World :=
  {| py_random := 0; np_random := 0; GM_PATCHES := GM_PATCHES_init;
     trace := [] |}.

(** Computations: state passing, with exceptions. *)
Definition M (A : Type) : Type := World -> result A * World.

Definition ret {A} (a : A) : M A := fun w => (Ok a, w).

Definition bind {A B} (c : M A) (k : A -> M B) : M B :=
  fun w =>
    match c w with
    | (Ok a, w') => k a w'
    | (Raise e, w') => (Raise e, w')
    end.

Definition lift {A} (r : result A) : M A := fun w => (r, w).

#[global] Instance M_ret : MRet M := @ret.
#[global] Instance M_bind : MBind M := fun A B k c => bind c k.

(** The world after the events [evs]. *)
Definition record (w : World) (evs : list Event) : World :=
  {| py_random := py_random w; np_random := np_random w;
     GM_PATCHES := GM_PATCHES w; trace := trace w ++ evs |}.

Definition emit (ev : Event) : M unit :=
  fun w => (Ok tt, record w [ev]).

(** [os.system(cmd)]: runs the command, returns its exit status. *)
Definition os_system (env : Env) (cmd : Cmd) : M Z :=
  fun w =>
    let st := exit_status env (trace w) cmd in
    (Ok st, record w [System cmd st]).

(** [np.random.randint(low, high, size)]. *)
Definition np_random_randint (env : Env) (low high : Z) (size : nat)
  : M (list Z) :=
  fun w =>
    (Ok (randint env (np_random w) low high size),
     {| py_random := py_random w; np_random := S (np_random w);
        GM_PATCHES := GM_PATCHES w; trace := trace w |}).

(** [random.shuffle(GM_PATCHES)]: shuffles the global list in place. *)
Definition random_shuffle_GM_PATCHES (env : Env) : M unit :=
  fun w =>
    (Ok tt,
     {| py_random := S (py_random w); np_random := np_random w;
        GM_PATCHES := shuffle env (py_random w) (GM_PATCHES w);
        trace := trace w |}).

(** [GM_PATCHES[i]]. *)
Definition GM_PATCHES_get (i : Z) : M Z :=
  fun w =>
    let n := Z.of_nat (length (GM_PATCHES w)) in
    let j := if i <? 0 then i + n else i in
    if (j <? 0) || (n <=? j) then (Raise IndexError, w)
    else match GM_PATCHES w !! Z.to_nat j with
         | Some p => (Ok p, w)
         | None => (Raise IndexError, w)
         end.

(** [for x in l: body(x)]. *)
Fixpoint for_ {A} (l : list A) (body : A -> M unit) : M unit :=
  match l with
  | [] => ret tt
  | x :: l' => body x ;; for_ l' body
  end.

(** ** class Sample *)

Module Sample.

Definition SOUNDFONT : string := "soundfont.sf2".

(** One turn of the loop over [enumerate(Note.names)]:
    [note_map[note_name] = i]. *)
Definition note_map_step (note_map : gmap string Z) (entry : Z * string)
  : gmap string Z :=
  let '(i, note_name) := entry in <[note_name := i]> note_map.

(** The dictionary the loop fills. *)
Definition build_note_map (names : list string) : gmap string Z :=
  foldl note_map_step ∅ (enumerate names).

(** [Sample.note_to_freq(note, octave, a_440)]. *)
Definition note_to_freq (note : string) (octave : Z) (a_440 : R) : result R :=
  let note_map := build_note_map Note.names in
  match note_map !! note with
  | None => Raise (KeyError note)
  | Some i =>
      let key := i + ((octave - 1) * 12) + 1 in
      n ← float_of_int (key - 46);
      p ← pow2 (n / 12);
      Ok (a_440 * p)%R
  end.

Record t : Type := mk {
  name : string;
  mid_filename : string;
  tmp_filename : string;
  key : string;
  octave : Z;
  note : string;
  freq : R;
  file : MIDIFile
}.

(** [MIDIFile.addTempo(track, time, tempo)]: [midiutil] stores the tempo
    as the microseconds of a beat, [int(60000000 / tempo)], when the event
    is added. *)
Definition addTempo (track time tempo : Z) : result MidiEvent :=
  if tempo =? 0 then Raise ZeroDivisionError
  else Ok (AddTempo track time tempo).

(** [Sample.__init__(name, program, key, octave, volume, tempo)]: the
    frequency first, then the tempo event, and [Note.note] last, as the
    argument of [addNote]. *)
Definition init (name : string) (program : Z) (key : string) (octave : Z)
    (volume tempo : Z) : result t :=
  let note := key ++ str_int octave in
  freq ← note_to_freq key octave 440;
  tempo_event ← addTempo 0 0 tempo;
  pitch ← Note.note note;
  Ok {| name := name;
        mid_filename := name ++ ".mid";
        tmp_filename := name ++ "-" ++ "full" ++ ".wav";
        key := key;
        octave := octave;
        note := note;
        freq := freq;
        file := {| numTracks := 1; adjust_origin := true;
                   eventList := [tempo_event;
                                 AddProgramChange 0 0 0 program;
                                 AddNote 0 0 pitch 0 1 volume] |} |}.

(** [save]: the score is written to [mid_filename].  The file is taken to
    open for writing and the events to fit the bytes of the MIDI format;
    [open] raises where the directory of the name, [data/] in [main], is
    missing. *)
Definition save (self : t) : M unit :=
  emit (WriteFile (mid_filename self) (file self)).

(** [make_wav]: the status [os.system] returns is dropped. *)
Definition make_wav (env : Env) (self : t) : M unit :=
  save self ;;
  os_system env
    (Fluidsynth SOUNDFONT (mid_filename self) (tmp_filename self)) ;;
  ret tt.

(** The cents handed to [sox] for a shift of [pitch_shift_hz] Hz.  The
    division by a base frequency of 0 is the one of Python's own numbers;
    [__init__] sets positive frequencies only. *)
Definition shift_cents_of (self : t) (pitch_shift_hz : Z) : result pynum :=
  let shift_cents := PInt 0 in
  if negb (pitch_shift_hz =? 0) then
    if Req_dec_T (freq self) 0 then Raise ZeroDivisionError
    else
      l ← math_log ((freq self + IZR pitch_shift_hz) / freq self) 2;
      Ok (PFloat (1200 * l))
  else Ok shift_cents.

(** The name of the artifact. *)
Definition wav_file_of (env : Env) (self : t) (suffix : string)
    (pitch_shift_hz : Z) : string :=
  let new_freq := (freq self + IZR pitch_shift_hz)%R in
  name self ++ "-" ++ format_3f env new_freq ++ "-" ++ "S" ++
  str_int pitch_shift_hz ++ "-" ++ suffix ++ ".wav".

(** [transform_wav(suffix, start_s, duration, pitch_shift_hz, resample_hz,
    resample_bits)].  The attribute [self.new_freq], written here and read
    nowhere else, is the local [new_freq] of [wav_file_of]. *)
Definition transform_wav (env : Env) (self : t) (suffix : string)
    (start_s duration : R) (pitch_shift_hz : Z)
    (resample_hz resample_bits : Z) : M unit :=
  shift_cents ← lift (shift_cents_of self pitch_shift_hz);
  let wav_file := wav_file_of env self suffix pitch_shift_hz in
  emit (PrintWriting wav_file resample_hz resample_bits shift_cents) ;;
  os_system env
    (Sox {| sox_input := tmp_filename self;
            sox_rate := resample_hz;
            sox_bits := resample_bits;
            sox_output := wav_file;
            sox_pitch := shift_cents;
            sox_trim_start := start_s;
            sox_trim_duration := duration |}) ;;
  ret tt.

Definition clean (self : t) : M unit := emit PrintDot.

End Sample.

(** ** main *)

(** The body of the innermost loop of [main]: one job. *)
Definition job (env : Env) (octave program : Z) (key : string) : M unit :=
  sample ← lift (Sample.init
                    ("data/note-" ++ key ++ str_int octave ++ "-P" ++
                     str_int program)
                    program key octave 100 60);
  Sample.make_wav env sample ;;
  draws ← np_random_randint env 10 80 5;
  for_ (0 :: draws) (fun pitch_shift_hz =>
    Sample.transform_wav env sample "attack" 0 0.33 pitch_shift_hz
                         44100 16 ;;
    Sample.transform_wav env sample "sustain" 0.33 0.33 pitch_shift_hz
                         44100 16 ;;
    Sample.transform_wav env sample "decay" 0.66 0.33 pitch_shift_hz
                         44100 16) ;;
  Sample.clean sample.

Definition main (env : Env) : M unit :=
  for_ (range 4 5) (fun octave =>
    random_shuffle_GM_PATCHES env ;;
    for_ (range 0 15) (fun patch =>
      program ← GM_PATCHES_get patch;
      for_ Note.names (fun key => job env octave program key))).

(** * The specification's vocabulary *)

(** ** Note names (spec, section 3 and 4.1) *)

Definition upper_ascii (c : ascii) : ascii :=
  let n := nat_of_ascii c in
  if ((97 <=? n)%nat && (n <=? 122)%nat)%bool then ascii_of_nat (n - 32) else c.

(** The C-major interval pattern {C:0, D:2, E:4, F:5, G:7, A:9, B:11}. *)
Definition semitone_table : list (ascii * Z) :=
  [("C", 0); ("D", 2); ("E", 4); ("F", 5); ("G", 7); ("A", 9);
   ("B", 11)]%char.

(** The semitone offset of a letter A-G, in either case. *)
Definition semitone_offset (letter : ascii) : option Z :=
  snd <$> find (fun p => Ascii.eqb (fst p) (upper_ascii letter)) semitone_table.

(** The shift of an accidental: none, flat [b], sharp [#] or [s]. *)
Definition accidental_shift (acc : string) : option Z :=
  if String.eqb acc "" then Some 0
  else if String.eqb acc "b" then Some (-1)
  else if String.eqb acc "#" then Some 1
  else if String.eqb acc "s" then Some 1
  else None.

(** The value of a single decimal digit. *)
Definition digit_value (d : ascii) : option Z :=
  if in_class "0123456789" d then Some (int_of_digit d) else None.

(** The shape [<letter><accidental?><digit>], and nothing else. *)
Definition well_shaped (s : string) : bool :=
  match s with
  | String l (String d EmptyString) =>
      in_class "ABCDEFGabcdefg" l && in_class "0123456789" d
  | String l (String a (String d EmptyString)) =>
      in_class "ABCDEFGabcdefg" l && in_class "b#s" a &&
      in_class "0123456789" d
  | _ => false
  end.

(** The pitch-class spelling and the octave of a note string, as its
    fields were matched. *)
Definition note_fields (s : string) : option (string * Z) :=
  match Note.re_match s with
  | Some (g1, g2, g3) => Some (String g1 g2, int_of_digit g3)
  | None => None
  end.

(** The 1-based position of a pitch class in the 12-name table, plus
    12 (octave - 1). *)
Definition key_index (position : nat) (octave : Z) : Z :=
  (Z.of_nat position + 1) + 12 * (octave - 1).

(** The numerators [n] of the exponent [n / 12.0] at which binary64 lets
    [pow(2, n / 12.0)] return: [n] converts to a [float] and the exponent
    is below 1024. *)
Definition pow_returns (n : Z) : Prop :=
  - (2 ^ 1024 - 2 ^ 970) < n < 12 * 1024.

(** [a] is within [tol] of [b]. *)
Definition within (tol a b : R) : Prop := (Rabs (a - b) <= tol)%R.

(** [a] equals [b] to within the relative error [tol]. *)
Definition within_rel (tol a b : R) : Prop :=
  (Rabs (a - b) <= tol * Rabs b)%R.

(** The frequency of a MIDI pitch number: 440 2^((m - 69) / 12). *)
Definition midi_to_freq (m : Z) : R :=
  (440 * Rpower 2 (IZR (m - 69) / 12))%R.

(** The cross-check of section 8 at a note string [s]: both sides are
    defined and agree to within the relative error 1e-6. *)
Definition cross_check (s : string) : Prop :=
  exists m name octave f,
    Note.note s = Ok m /\
    note_fields s = Some (name, octave) /\
    Sample.note_to_freq name octave 440 = Ok f /\
    within_rel 1e-6 (midi_to_freq m) f.

(** [s] without one trailing newline. *)
Fixpoint chomp (s : string) : string :=
  match s with
  | EmptyString => EmptyString
  | String c EmptyString =>
      if Ascii.eqb c newline then EmptyString else s
  | String c s' => String c (chomp s')
  end.

(** ** The augmentation plan (spec, sections 3 and 4.5) *)

(** The base-2 logarithm. *)
Definition log2 (x : R) : R := (ln x / ln 2)%R.

(** The cents of a shift by [delta] Hz from the base frequency [f]:
    1200 log2((f + delta) / f) when [delta] is not 0, else the integer 0. *)
Definition cents_for (f : R) (delta : Z) : pynum :=
  if delta =? 0 then PInt 0
  else PFloat (1200 * log2 ((f + IZR delta) / f)).

(** The three segments: label, start and duration in seconds. *)
Definition segments : list (string * R * R) :=
  [("attack", 0, 0.33); ("sustain", 0.33, 0.33); ("decay", 0.66, 0.33)]%R.

Definition segment_labels : list string := map (fun s => fst (fst s)) segments.

(** One augmentation instruction: a segment and a pitch-shift offset. *)
Record Instruction : Type := mkInstruction {
  seg_label : string;
  seg_start : R;
  seg_duration : R;
  shift_hz : Z
}.

(** Every offset paired with each of the three segments. *)
Definition augmentation_plan (offsets : list Z) : list Instruction :=
  flat_map (fun delta =>
              map (fun '(label, start, duration) =>
                     mkInstruction label start duration delta) segments)
           offsets.

(** The [sox] invocation that carries out an instruction on a job. *)
Definition sox_args_for (env : Env) (self : Sample.t) (ins : Instruction)
  : SoxArgs :=
  {| sox_input := Sample.tmp_filename self;
     sox_rate := 44100;
     sox_bits := 16;
     sox_output := Sample.wav_file_of env self (seg_label ins) (shift_hz ins);
     sox_pitch := cents_for (Sample.freq self) (shift_hz ins);
     sox_trim_start := seg_start ins;
     sox_trim_duration := seg_duration ins |}.

(** The commands given to [os.system] in a trace, in order. *)
Fixpoint commands (t : list Event) : list Cmd :=
  match t with
  | [] => []
  | System cmd _ :: t' => cmd :: commands t'
  | _ :: t' => commands t'
  end.

(** The [sox] invocations among a list of commands. *)
Fixpoint sox_calls (cs : list Cmd) : list SoxArgs :=
  match cs with
  | [] => []
  | Sox a :: cs' => a :: sox_calls cs'
  | _ :: cs' => sox_calls cs'
  end.

(** The name [main] gives a job, and the job's [Sample]. *)
Definition job_name (octave program : Z) (key : string) : string :=
  "data/note-" ++ key ++ str_int octave ++ "-P" ++ str_int program.

Definition job_sample (octave program : Z) (key : string) : result Sample.t :=
  Sample.init (job_name octave program key) program key octave 100 60.

(** The render command of a job, and the exit status it gets when the job
    starts in the world [w]. *)
Definition render_cmd (self : Sample.t) : Cmd :=
  Fluidsynth Sample.SOUNDFONT (Sample.mid_filename self)
             (Sample.tmp_filename self).

Definition render_status (env : Env) (w : World) (self : Sample.t) : Z :=
  exit_status env
    (trace w ++ [WriteFile (Sample.mid_filename self) (Sample.file self)])
    (render_cmd self).

(** The world [w] has the 25 patches of [w0], in the same order. *)
Definition patches_kept (w0 w : World) : Prop :=
  length (GM_PATCHES w) = 25%nat /\ GM_PATCHES w = GM_PATCHES w0.

(** The window of time a [sox] invocation trims: from [trim start] for
    [trim duration], a closed interval in seconds. *)
Definition trim_window (a : SoxArgs) : R * R :=
  (sox_trim_start a, (sox_trim_start a + sox_trim_duration a)%R).

Definition in_window (t : R) (win : R * R) : Prop :=
  (fst win <= t <= snd win)%R.

(** Two windows overlap when they share more than an end point. *)
Definition overlap (a b : R * R) : Prop :=
  exists t, (fst a < t < snd a)%R /\ (fst b < t < snd b)%R.

(** ** Labels (spec, sections 4.7 and 6) *)

(** [<job-name>-<frequency:.3f>-S<shift_hz>-<segment-label>.wav]. *)
Definition filename (env : Env) (job_name : string)
    (resulting_frequency : R) (shift_hz : Z) (segment_label : string)
  : string :=
  job_name ++ "-" ++ format_3f env resulting_frequency ++ "-S" ++
  str_int shift_hz ++ "-" ++ segment_label ++ ".wav".

(** [c in s]. *)
Fixpoint contains (c : ascii) (s : string) : bool :=
  match s with
  | EmptyString => false
  | String a s' => Ascii.eqb a c || contains c s'
  end.

(** [s.rsplit(c, 1)]: [s] cut at the last [c], if [c] occurs in [s]. *)
Fixpoint rsplit (c : ascii) (s : string) : option (string * string) :=
  match s with
  | EmptyString => None
  | String a s' =>
      match rsplit c s' with
      | Some (p, t) => Some (String a p, t)
      | None => if Ascii.eqb a c then Some (EmptyString, s') else None
      end
  end.

(** ** A concrete world, for examples *)

(** A world in which every command exits with [status]; the draws walk
    through the range, the shuffle reverses, and ["%.3f"] is not rendered. *)
Definition example_env (status : Z) : Env :=
  {| exit_status := fun _ _ => status;
     randint := fun g low high size =>
       map (fun i => low + (7 * Z.of_nat (g + i)) mod (high - low))
           (seq 0 size);
     shuffle := fun _ l => rev l;
     format_3f := fun _ => "" |}.

(** The sample of the note A4, as [Sample.__init__] fills it with a base
    frequency of 440 Hz. *)
Definition example_sample : Sample.t :=
  {| Sample.name := "data/note-A4-P0";
     Sample.mid_filename := "data/note-A4-P0.mid";
     Sample.tmp_filename := "data/note-A4-P0-full.wav";
     Sample.key := "A";
     Sample.octave := 4;
     Sample.note := "A4";
     Sample.freq := 440;
     Sample.file := {| numTracks := 1; adjust_origin := true;
                       eventList := [AddTempo 0 0 60;
                                     AddProgramChange 0 0 0 0;
                                     AddNote 0 0 69 0 1 100] |} |}.

(** ** Observations on a run *)


(** The MIDI files given to the renderer among a list of commands. *)
Fixpoint rendered (cs : list Cmd) : list string :=
  match cs with
  | [] => []
  | Fluidsynth _ mid _ :: cs' => mid :: rendered cs'
  | _ :: cs' => rendered cs'
  end.

(** The MIDI files the jobs of a pass render: for each program, in order,
    one per name of the table. *)
Definition pass_files (octave : Z) (programs : list Z) : list string :=
  flat_map (fun program =>
              map (fun key => job_name octave program key ++ ".mid")
                  Note.names)
           programs.

(** [s.split(c, 1)]: [s] cut at the first [c], if [c] occurs in [s]. *)
Fixpoint lsplit (c : ascii) (s : string) : option (string * string) :=
  match s with
  | EmptyString => None
  | String a s' =>
      if Ascii.eqb a c then Some (EmptyString, s')
      else match lsplit c s' with
           | Some (p, t) => Some (String a p, t)
           | None => None
           end
  end.

(** * Properties *)

(** ** The note table *)

Lemma names_NoDup : NoDup Note.names.
Proof. apply (bool_decide_unpack _). vm_compute. exact I. Qed.

Lemma note_map_lookup_notin (l : list string) (m : gmap string Z) k n :
  n ∉ l -> foldl Sample.note_map_step m (enumerate_from k l) !! n = m !! n.
Proof.
  revert m k. induction l as [|x l IH]; intros m k Hn; simpl; [done|].
  apply not_elem_of_cons in Hn as [Hx Hl].
  rewrite IH by done. by rewrite lookup_insert_ne.
Qed.

Lemma note_map_lookup_in (l : list string) (m : gmap string Z) k i n :
  NoDup l -> l !! i = Some n ->
  foldl Sample.note_map_step m (enumerate_from k l) !! n =
  Some (k + Z.of_nat i).
Proof.
  revert m k i. induction l as [|x l IH]; intros m k i Hd Hi; [done|].
  apply NoDup_cons in Hd as [Hx Hd]. destruct i as [|i]; simpl in *.
  - injection Hi as ->. rewrite note_map_lookup_notin by done.
    rewrite lookup_insert_eq. f_equal. lia.
  - rewrite (IH _ _ i) by done. f_equal. lia.
Qed.

Lemma build_note_map_in i n :
  Note.names !! i = Some n ->
  Sample.build_note_map Note.names !! n = Some (Z.of_nat i).
Proof.
  intros H. unfold Sample.build_note_map, enumerate.
  erewrite note_map_lookup_in; eauto using names_NoDup.
Qed.

Lemma build_note_map_notin n :
  n ∉ Note.names -> Sample.build_note_map Note.names !! n = None.
Proof.
  intros H. unfold Sample.build_note_map, enumerate.
  by rewrite note_map_lookup_notin.
Qed.

(** On a name of the table the lookup succeeds, and what is left is the
    arithmetic on the key. *)
Lemma note_to_freq_table i n octave a_440 :
  Note.names !! i = Some n ->
  Sample.note_to_freq n octave a_440 =
  (m ← float_of_int (key_index i octave - 46);
   p ← pow2 (m / 12);
   Ok (a_440 * p)%R).
Proof.
  intros H. unfold Sample.note_to_freq.
  rewrite (build_note_map_in _ _ H).
  replace (Z.of_nat i + (octave - 1) * 12 + 1 - 46)
    with (key_index i octave - 46) by (unfold key_index; lia).
  reflexivity.
Qed.

Lemma float_limit : 12 * 1075 < 2 ^ 1024 - 2 ^ 970.
Proof. reflexivity. Qed.

Lemma float_of_int_ok n :
  - (2 ^ 1024 - 2 ^ 970) < n < 2 ^ 1024 - 2 ^ 970 ->
  float_of_int n = Ok (IZR n).
Proof.
  intros H. unfold float_of_int.
  destruct (Z.ltb_spec (Z.abs n) (2 ^ 1024 - 2 ^ 970)) as [_|H']; [done|].
  revert H H'. generalize (2 ^ 1024 - 2 ^ 970). lia.
Qed.

Lemma float_of_int_overflow n :
  ~ - (2 ^ 1024 - 2 ^ 970) < n < 2 ^ 1024 - 2 ^ 970 ->
  float_of_int n = Raise OverflowError.
Proof.
  intros H. unfold float_of_int.
  destruct (Z.ltb_spec (Z.abs n) (2 ^ 1024 - 2 ^ 970)) as [H'|_]; [|done].
  revert H H'. generalize (2 ^ 1024 - 2 ^ 970). lia.
Qed.

Lemma pow2_ok n :
  - (12 * 1075) < n < 12 * 1024 ->
  pow2 (IZR n / 12) = Ok (Rpower 2 (IZR n / 12)).
Proof.
  intros [Hlo Hhi]. apply IZR_lt in Hlo, Hhi.
  rewrite opp_IZR in Hlo. rewrite mult_IZR in Hlo, Hhi.
  unfold pow2.
  destruct (Rle_dec 1024 (IZR n / 12)) as [H|_]; [lra|].
  destruct (Rle_dec (IZR n / 12) (-1075)) as [H|_]; [lra|]. reflexivity.
Qed.

Lemma pow2_overflow n :
  12 * 1024 <= n -> pow2 (IZR n / 12) = Raise OverflowError.
Proof.
  intros H. apply IZR_le in H. rewrite mult_IZR in H. unfold pow2.
  destruct (Rle_dec 1024 (IZR n / 12)) as [_|H']; [done|lra].
Qed.

Lemma pow2_underflow n :
  n <= - (12 * 1075) -> pow2 (IZR n / 12) = Ok 0%R.
Proof.
  intros H. apply IZR_le in H. rewrite opp_IZR, mult_IZR in H. unfold pow2.
  destruct (Rle_dec 1024 (IZR n / 12)) as [H'|_]; [lra|].
  destruct (Rle_dec (IZR n / 12) (-1075)) as [_|H']; [done|lra].
Qed.

(** The three regimes of the arithmetic: the formula, where 2^x is in the
    range of binary64; [OverflowError]; and 0, where 2^x underflows. *)
Lemma freq_arith_ok n a_440 :
  - (12 * 1075) < n < 12 * 1024 ->
  (m ← float_of_int n; p ← pow2 (m / 12); Ok (a_440 * p)%R) =
  Ok (a_440 * Rpower 2 (IZR n / 12))%R.
Proof.
  intros H. pose proof float_limit.
  rewrite float_of_int_ok by lia. cbn [mbind result_bind rbind].
  by rewrite pow2_ok.
Qed.

Lemma freq_arith_overflow n a_440 :
  ~ pow_returns n ->
  (m ← float_of_int n; p ← pow2 (m / 12); Ok (a_440 * p)%R) =
  Raise OverflowError.
Proof.
  intros H. unfold pow_returns in H. pose proof float_limit as Hl.
  destruct (Z_lt_le_dec n (2 ^ 1024 - 2 ^ 970)) as [Hn|Hn].
  - destruct (Z_lt_le_dec (- (2 ^ 1024 - 2 ^ 970)) n) as [Hn'|Hn'].
    + rewrite float_of_int_ok by lia. cbn [mbind result_bind rbind].
      rewrite pow2_overflow by lia. reflexivity.
    + rewrite float_of_int_overflow by lia. reflexivity.
  - rewrite float_of_int_overflow by lia. reflexivity.
Qed.

Lemma freq_arith_underflow n a_440 :
  - (2 ^ 1024 - 2 ^ 970) < n <= - (12 * 1075) ->
  (m ← float_of_int n; p ← pow2 (m / 12); Ok (a_440 * p)%R) =
  Ok (a_440 * 0)%R.
Proof.
  intros H. pose proof float_limit.
  rewrite float_of_int_ok by lia. cbn [mbind result_bind rbind].
  by rewrite pow2_underflow by lia.
Qed.

Lemma freq_arith_returns n a_440 :
  pow_returns n ->
  returns (m ← float_of_int n; p ← pow2 (m / 12); Ok (a_440 * p)%R).
Proof.
  intros H. unfold pow_returns in H.
  destruct (Z_lt_le_dec (- (12 * 1075)) n) as [Hn|Hn].
  - rewrite freq_arith_ok by lia. by eexists.
  - rewrite freq_arith_underflow by lia. by eexists.
Qed.

(** The key of a note of the table in an octave from -1000 to 1000 is
    well inside the range. *)
Lemma key_index_moderate i n octave :
  Note.names !! i = Some n -> -1000 <= octave <= 1000 ->
  - (12 * 1075) < key_index i octave - 46 < 12 * 1024.
Proof.
  intros Hi Ho. apply lookup_lt_Some in Hi.
  change (length Note.names) with 12%nat in Hi. unfold key_index. lia.
Qed.

Lemma note_to_freq_names i n octave a_440 :
  Note.names !! i = Some n ->
  -1000 <= octave <= 1000 ->
  Sample.note_to_freq n octave a_440 =
  Ok (a_440 * Rpower 2 (IZR (key_index i octave - 46) / 12))%R.
Proof.
  intros H Ho. rewrite (note_to_freq_table _ _ _ _ H).
  apply freq_arith_ok. by eapply key_index_moderate.
Qed.

Lemma note_to_freq_other n octave a_440 :
  ~ In n Note.names ->
  Sample.note_to_freq n octave a_440 = Raise (KeyError n).
Proof.
  intros H. unfold Sample.note_to_freq.
  rewrite build_note_map_notin; [done|]. by rewrite list_elem_of_In.
Qed.

(** ** PitchResolver *)

Lemma accidental_shift_inv acc sh :
  accidental_shift acc = Some sh ->
  (acc = "" /\ sh = 0) \/ (acc = "b" /\ sh = -1) \/
  (acc = "#" /\ sh = 1) \/ (acc = "s" /\ sh = 1).
Proof.
  unfold accidental_shift.
  destruct (String.eqb_spec acc "") as [->|_]; [intros [= <-]; auto|].
  destruct (String.eqb_spec acc "b") as [->|_]; [intros [= <-]; auto|].
  destruct (String.eqb_spec acc "#") as [->|_]; [intros [= <-]; auto 6|].
  destruct (String.eqb_spec acc "s") as [->|_]; [intros [= <-]; auto 6|].
  discriminate.
Qed.

Lemma in_class_In cls c :
  in_class cls c = true -> In c (list_ascii_of_string cls).
Proof.
  unfold in_class. rewrite existsb_exists.
  intros (x & Hx & Heq). apply Ascii.eqb_eq in Heq. by subst.
Qed.

Lemma int_of_digit_range d :
  in_class "0123456789" d = true -> 0 <= int_of_digit d <= 9.
Proof.
  intros H. apply in_class_In in H. simpl in H.
  repeat (destruct H as [<-|H]; [vm_compute; split; discriminate|]).
  contradiction.
Qed.

Lemma digit_value_inv d oct :
  digit_value d = Some oct ->
  In d (list_ascii_of_string "0123456789") /\ oct = int_of_digit d.
Proof.
  unfold digit_value. destruct (in_class _ d) eqn:E; [|discriminate].
  intros [= <-]. split; [by apply in_class_In | done].
Qed.

Lemma semitone_offset_inv letter off :
  semitone_offset letter = Some off ->
  In (letter, off)
     [("C", 0); ("D", 2); ("E", 4); ("F", 5); ("G", 7); ("A", 9); ("B", 11);
      ("c", 0); ("d", 2); ("e", 4); ("f", 5); ("g", 7); ("a", 9);
      ("b", 11)]%char.
Proof.
  destruct letter as [[] [] [] [] [] [] [] []]; vm_compute;
    intros H; try discriminate H; injection H as <-; tauto.
Qed.

(** C3: on every valid note string (a letter A-G in either case, an
    optional accidental [b], [#] or [s], one octave digit) [Note.note]
    returns (octave + 1) * 12 + the semitone offset of the letter + the
    shift of the accidental; and ["C4"] is 60, ["A4"] 69, ["Cs4"] 61 and
    ["Bb3"] 58. *)
Theorem note_is_midi_number :
  (forall letter acc digit off sh oct,
     semitone_offset letter = Some off ->
     accidental_shift acc = Some sh ->
     digit_value digit = Some oct ->
     Note.note (String letter (acc ++ String digit "")) =
     Ok ((oct + 1) * 12 + off + sh)) /\
  Note.note "C4" = Ok 60 /\ Note.note "A4" = Ok 69 /\
  Note.note "Cs4" = Ok 61 /\ Note.note "Bb3" = Ok 58.
Proof.
  split; [|repeat split; vm_compute; reflexivity].
  intros letter acc digit off sh oct Hl Ha Hd.
  apply semitone_offset_inv in Hl. apply digit_value_inv in Hd as [Hd ->].
  apply accidental_shift_inv in Ha.
  simpl in Hl, Hd.
  repeat (destruct Hl as [[= <- <-]|Hl]); try contradiction;
    (repeat (destruct Ha as [[-> ->]|Ha]); try destruct Ha as [-> ->]);
    (repeat (destruct Hd as [<-|Hd])); try contradiction;
    vm_compute; reflexivity.
Qed.

Lemma note_is_midi_number_witness :
  semitone_offset "B" = Some 11 /\ accidental_shift "b" = Some (-1) /\
  digit_value "3" = Some 3 /\
  Note.note "Bb3" = Ok ((3 + 1) * 12 + 11 + -1).
Proof.
  split; [reflexivity|]. split; [reflexivity|]. split; [reflexivity|].
  apply (proj1 note_is_midi_number "B"%char "b" "3"%char); reflexivity.
Defined.

Lemma class_digit_not_acc d :
  in_class "0123456789" d = true -> in_class "b#s" d = false.
Proof.
  intros H. apply in_class_In in H. simpl in H.
  repeat (destruct H as [<-|H]; [reflexivity|]). contradiction.
Qed.

Lemma class_letter_values c :
  in_class "ABCDEFGabcdefg" c = true ->
  is_Some (Note.values !! lower (String c "")).
Proof.
  intros H. apply in_class_In in H. simpl in H.
  repeat (destruct H as [<-|H]; [vm_compute; eauto|]). contradiction.
Qed.

(** A string the pattern does not match raises, a string it matches
    returns: [Note.note] never fails on the lookup in [values]. *)
Lemma note_raises_iff s :
  Note.note s = Raise AttributeError <-> Note.re_match s = None.
Proof.
  unfold Note.note. split.
  - destruct (Note.re_match s) as [[[g1 g2] g3]|]; [|done].
    destruct (Note.values !! _); [discriminate|discriminate].
  - by intros ->.
Qed.

Lemma re_match_letter s g1 g2 g3 :
  Note.re_match s = Some (g1, g2, g3) ->
  in_class "ABCDEFGabcdefg" g1 = true.
Proof.
  destruct s as [|c [|a rest]]; simpl; try discriminate;
    destruct (in_class "ABCDEFGabcdefg" c) eqn:E; try discriminate.
  unfold Note.match_octave.
  repeat match goal with
         | |- context [match ?r with String _ _ => _ | EmptyString => _ end] =>
             destruct r
         | |- context [if ?b then _ else _] => destruct b
         end; intros [= <- <- <-] || discriminate; exact E.
Qed.

Lemma note_returns_iff s :
  returns (Note.note s) <-> Note.re_match s <> None.
Proof.
  unfold Note.note. split.
  - intros [m Hm] E. rewrite E in Hm. discriminate.
  - intros H. destruct (Note.re_match s) as [[[g1 g2] g3]|] eqn:E; [|done].
    destruct (class_letter_values g1 (re_match_letter _ _ _ _ E)) as [v ->].
    by eexists.
Qed.

(** The strings the pattern matches: the shape itself, and the shape
    followed by one newline. *)
Lemma re_match_shape s :
  Note.re_match s <> None <->
  well_shaped s = true \/ well_shaped (chomp s) = true /\ s <> chomp s.
Proof.
  destruct s as [|c1 [|c2 [|c3 [|c4 [|c5 s]]]]]; simpl;
    unfold Note.match_octave; simpl.
  all: repeat match goal with
       | |- context [in_class ?cls ?c] =>
           let E := fresh "E" in destruct (in_class cls c) eqn:E; simpl
       | |- context [Ascii.eqb ?a ?b] =>
           destruct (Ascii.eqb_spec a b); subst; simpl
       | H : in_class "0123456789" ?d = true,
         H' : in_class "b#s" ?d = true |- _ =>
           rewrite (class_digit_not_acc d H) in H'; discriminate
       end.
  all: try (split; [intros _|intros _; discriminate]; auto; fail).
  all: try (split; [intros H; contradiction|intros [H|[H _]]; discriminate]).
  all: try (split; [intros _; right; split; [done|discriminate]
                   |intros _; discriminate]).
  all: try (split; [intros H; contradiction
                   |intros [H|[H H']]; try discriminate; try done]).
Qed.

(** What the code does reject. *)
Lemma note_malformed_raises s :
  well_shaped s = false -> well_shaped (chomp s) = false ->
  Note.note s = Raise AttributeError.
Proof.
  intros H1 H2. apply note_raises_iff.
  destruct (Note.re_match s) eqn:E; [|done].
  assert (Note.re_match s <> None) as Hm by congruence.
  apply re_match_shape in Hm as [Hm|[Hm _]]; congruence.
Qed.

(** C5, at the failing input: a note name followed by a newline is not of
    the shape [<letter><accidental?><digit>], and [Note.note] returns a
    pitch number for it instead of raising. *)
Theorem note_accepts_trailing_newline :
  well_shaped ("A4" ++ String newline "") = false /\
  Note.note ("A4" ++ String newline "") = Ok 69 /\
  well_shaped ("Bb3" ++ String newline "") = false /\
  Note.note ("Bb3" ++ String newline "") = Ok 58.
Proof. repeat split; vm_compute; reflexivity. Qed.

(** ** FrequencyModel *)

(** C10, as the code has it: outside the 12 names of [Note.names] the
    lookup in [note_map] raises [KeyError], among them the flat ["Bb"] and
    the lower-case ["a"], which [Note.note] accepts.  On a name of the
    table the call returns exactly when binary64 lets [pow] return, that is
    when the exponent (key - 46) / 12 is below 1024 (and the key is not
    too large a negative [int] to convert); otherwise it raises
    [OverflowError].  It returns for every octave between -2^1000 and
    1027, and raises for every octave from 1029 on. *)
Theorem note_to_freq_domain :
  forall note octave a_440,
    (returns (Sample.note_to_freq note octave a_440) <->
     exists position,
       Note.names !! position = Some note /\
       pow_returns (key_index position octave - 46)) /\
    (~ In note Note.names <->
     Sample.note_to_freq note octave a_440 = Raise (KeyError note)) /\
    (Sample.note_to_freq note octave a_440 = Raise OverflowError <->
     exists position,
       Note.names !! position = Some note /\
       ~ pow_returns (key_index position octave - 46)) /\
    (In note Note.names -> (- 2 ^ 1000 <= octave <= 1027) ->
     returns (Sample.note_to_freq note octave a_440)) /\
    (In note Note.names -> 1029 <= octave ->
     Sample.note_to_freq note octave a_440 = Raise OverflowError) /\
    Sample.note_to_freq "Bb" 3 440 = Raise (KeyError "Bb") /\
    Note.note "Bb3" = Ok 58 /\
    Sample.note_to_freq "a" 4 440 = Raise (KeyError "a") /\
    Note.note "a4" = Ok 69.
Proof.
  intros note octave a_440.
  assert (Hdec : In note Note.names \/ ~ In note Note.names).
  { rewrite <- list_elem_of_In. destruct (decide (note ∈ Note.names)); auto. }
  assert (Hcase : forall i, Note.names !! i = Some note ->
            (pow_returns (key_index i octave - 46) /\
             returns (Sample.note_to_freq note octave a_440)) \/
            (~ pow_returns (key_index i octave - 46) /\
             Sample.note_to_freq note octave a_440 = Raise OverflowError)).
  { intros i Hi. rewrite (note_to_freq_table _ _ _ _ Hi).
    assert (Hd : pow_returns (key_index i octave - 46) \/
                 ~ pow_returns (key_index i octave - 46))
      by (unfold pow_returns; lia).
    destruct Hd as [Hd|Hd]; [left|right]; (split; [exact Hd|]).
    - by apply freq_arith_returns.
    - by apply freq_arith_overflow. }
  split; [|split; [|split; [|split; [|split]]]].
  - split.
    + intros [f Hf]. destruct Hdec as [H|H];
        [|rewrite (note_to_freq_other _ _ _ H) in Hf; discriminate].
      apply list_elem_of_In, list_elem_of_lookup in H as [i Hi].
      exists i. split; [exact Hi|].
      destruct (Hcase i Hi) as [[Hr _]|[_ Hr]]; [exact Hr|congruence].
    + intros (i & Hi & Hr).
      destruct (Hcase i Hi) as [[_ H]|[H _]]; [exact H|contradiction].
  - split.
    + apply note_to_freq_other.
    + intros Hr H.
      apply list_elem_of_In, list_elem_of_lookup in H as [i Hi].
      destruct (Hcase i Hi) as [[_ [f Hf]]|[_ Hf]]; congruence.
  - split.
    + intros Hr. destruct Hdec as [H|H];
        [|rewrite (note_to_freq_other _ _ _ H) in Hr; discriminate].
      apply list_elem_of_In, list_elem_of_lookup in H as [i Hi].
      exists i. split; [exact Hi|].
      destruct (Hcase i Hi) as [[_ [f Hf]]|[H _]]; [congruence|exact H].
    + intros (i & Hi & Hr).
      destruct (Hcase i Hi) as [[H _]|[_ H]]; [contradiction|exact H].
  - intros H Ho. apply list_elem_of_In, list_elem_of_lookup in H as [i Hi].
    destruct (Hcase i Hi) as [[_ H]|[H _]]; [exact H|]. exfalso. apply H.
    apply lookup_lt_Some in Hi. change (length Note.names) with 12%nat in Hi.
    assert (Hbig : 12 * 2 ^ 1000 + 100 < 2 ^ 1024 - 2 ^ 970) by reflexivity.
    unfold pow_returns, key_index.
    revert Hbig Ho. generalize (2 ^ 1024 - 2 ^ 970) (2 ^ 1000). lia.
  - intros H Ho. apply list_elem_of_In, list_elem_of_lookup in H as [i Hi].
    destruct (Hcase i Hi) as [[H _]|[_ H]]; [|exact H]. exfalso.
    unfold pow_returns, key_index in H. lia.
  - repeat split; try (vm_compute; reflexivity);
      apply note_to_freq_other; simpl; intuition discriminate.
Qed.

(** C10 as stated fails: ["A"] is a name of the table, and at octave 1028
    the call does not return: the exponent is 1024 and [pow] raises
    [OverflowError]. *)
Lemma note_to_freq_raises_on_table :
  In "A" Note.names /\
  Sample.note_to_freq "A" 1028 440 = Raise OverflowError /\
  ~ returns (Sample.note_to_freq "A" 1028 440).
Proof.
  assert (H : Sample.note_to_freq "A" 1028 440 = Raise OverflowError).
  { rewrite (note_to_freq_table 9%nat "A" 1028 440 eq_refl).
    apply freq_arith_overflow. unfold pow_returns, key_index. lia. }
  split; [simpl; tauto|]. split; [exact H|].
  intros [f Hf]. congruence.
Qed.

(** C4, as the code has it: on a name of the 12-name table and an octave
    from -1000 to 1000 (where the result is well inside the range of
    binary64), [Sample.note_to_freq] returns 440 2^((key_index - 46) / 12),
    where [key_index] is the 1-based position of the name plus
    12 (octave - 1); and A4 is 440, A5 is 880, A3 is 220, each to within
    1e-6. *)
Theorem note_to_freq_formula :
  (forall position name octave,
     Note.names !! position = Some name ->
     -1000 <= octave <= 1000 ->
     Sample.note_to_freq name octave 440 =
     Ok (440 * Rpower 2 (IZR (key_index position octave - 46) / 12))%R) /\
  (exists f, Sample.note_to_freq "A" 4 440 = Ok f /\ within 1e-6 f 440) /\
  (exists f, Sample.note_to_freq "A" 5 440 = Ok f /\ within 1e-6 f 880) /\
  (exists f, Sample.note_to_freq "A" 3 440 = Ok f /\ within 1e-6 f 220).
Proof.
  split; [intros; by apply note_to_freq_names|].
  assert (HA : Note.names !! 9%nat = Some "A") by reflexivity.
  repeat split; eexists;
    (split; [apply (note_to_freq_names _ _ _ _ HA); lia|]);
    unfold within.
  - replace (IZR (key_index 9 4 - 46) / 12)%R with 0%R
      by (change (key_index 9 4 - 46) with 0; lra).
    rewrite Rpower_O by lra.
    replace (440 * 1 - 440)%R with 0%R by lra. rewrite Rabs_R0. lra.
  - replace (IZR (key_index 9 5 - 46) / 12)%R with 1%R
      by (change (key_index 9 5 - 46) with 12; lra).
    rewrite Rpower_1 by lra.
    replace (440 * 2 - 880)%R with 0%R by lra. rewrite Rabs_R0. lra.
  - replace (IZR (key_index 9 3 - 46) / 12)%R with (Ropp 1)
      by (change (key_index 9 3 - 46) with (-12); lra).
    rewrite Rpower_Ropp, Rpower_1 by lra.
    replace (440 * / 2 - 220)%R with 0%R by lra. rewrite Rabs_R0. lra.
Qed.

Lemma note_to_freq_formula_witness :
  Note.names !! 9%nat = Some "A" /\ -1000 <= 4 <= 1000 /\
  Sample.note_to_freq "A" 4 440 =
  Ok (440 * Rpower 2 (IZR (key_index 9 4 - 46) / 12))%R.
Proof.
  assert (H : -1000 <= 4 <= 1000) by lia.
  split; [reflexivity|]. split; [exact H|].
  exact (proj1 note_to_freq_formula 9%nat "A" 4 eq_refl H).
Defined.

(** C4 as stated fails beyond the range of binary64: for the name ["A"] at
    octave 1028 the call raises [OverflowError] instead of returning a
    frequency, and at octave -1080 it returns 0, not 440 2^(-1084). *)
Lemma note_to_freq_formula_out_of_range :
  Note.names !! 9%nat = Some "A" /\
  Sample.note_to_freq "A" 1028 440 = Raise OverflowError /\
  Sample.note_to_freq "A" (-1080) 440 = Ok (440 * 0)%R /\
  (440 * 0 <> 440 * Rpower 2 (IZR (key_index 9 (-1080) - 46) / 12))%R.
Proof.
  split; [reflexivity|]. split; [|split].
  - rewrite (note_to_freq_table 9%nat "A" 1028 440 eq_refl).
    apply freq_arith_overflow. unfold pow_returns, key_index. lia.
  - rewrite (note_to_freq_table 9%nat "A" (-1080) 440 eq_refl).
    apply freq_arith_underflow. pose proof float_limit.
    unfold key_index. lia.
  - pose proof (exp_pos (IZR (key_index 9 (-1080) - 46) / 12 * ln 2)) as H.
    unfold Rpower. lra.
Qed.

(** ** The cross-check of the two models *)

Lemma note_of_table_name position name digit :
  Note.names !! position = Some name ->
  in_class "0123456789" digit = true ->
  Note.note (name ++ String digit "") =
    Ok ((int_of_digit digit + 1) * 12 + Z.of_nat position) /\
  note_fields (name ++ String digit "") = Some (name, int_of_digit digit).
Proof.
  intros Hn Hd. apply in_class_In in Hd. simpl in Hd.
  do 12 (destruct position as [|position];
         [injection Hn as <-;
          repeat (destruct Hd as [<-|Hd]; [split; vm_compute; reflexivity|]);
          contradiction|]).
  discriminate.
Qed.

Lemma within_rel_refl tol x : (0 <= tol)%R -> within_rel tol x x.
Proof.
  intros H. unfold within_rel. rewrite Rminus_diag, Rabs_R0.
  apply Rmult_le_pos; [done | apply Rabs_pos].
Qed.

(** C2, as the code has it: for a note string made of one of the 12 names
    of [Note.names] and one octave digit, the frequency of the MIDI pitch
    number and the frequency [Sample.note_to_freq] returns for the name and
    the octave are the same number, so they agree to within 1e-6. *)
Theorem cross_check_on_table :
  forall name digit,
    In name Note.names ->
    in_class "0123456789" digit = true ->
    (exists m f,
       Note.note (name ++ String digit "") = Ok m /\
       Sample.note_to_freq name (int_of_digit digit) 440 = Ok f /\
       midi_to_freq m = f) /\
    cross_check (name ++ String digit "").
Proof.
  intros name digit Hn Hd.
  apply list_elem_of_In, list_elem_of_lookup in Hn as [i Hi].
  destruct (note_of_table_name _ _ _ Hi Hd) as [Hm Hf].
  pose proof (int_of_digit_range _ Hd) as Hr.
  pose proof (note_to_freq_names _ _ (int_of_digit digit) 440 Hi
                ltac:(lia)) as Hq.
  assert (Heq : midi_to_freq ((int_of_digit digit + 1) * 12 + Z.of_nat i) =
                (440 * Rpower 2
                         (IZR (key_index i (int_of_digit digit) - 46) / 12))%R).
  { unfold midi_to_freq, key_index. do 4 f_equal. lia. }
  split.
  - eexists _, _. eauto.
  - exists ((int_of_digit digit + 1) * 12 + Z.of_nat i), name,
      (int_of_digit digit). eexists.
    repeat split; eauto. rewrite Heq. apply within_rel_refl. lra.
Qed.

Lemma cross_check_on_table_witness :
  In "Cs" Note.names /\ in_class "0123456789" "4" = true /\
  cross_check "Cs4".
Proof.
  assert (H1 : In "Cs" Note.names) by (simpl; tauto).
  assert (H2 : in_class "0123456789" "4" = true) by reflexivity.
  split; [exact H1|]. split; [exact H2|].
  exact (proj2 (cross_check_on_table "Cs" "4"%char H1 H2)).
Defined.

(** C2 as stated fails: ["b3"] and ["Bb3"] are valid note strings, with
    MIDI pitch numbers 59 and 58, and [Sample.note_to_freq] raises
    [KeyError] on their spellings ["b"] and ["Bb"]. *)
Lemma cross_check_fails_off_table :
  (well_shaped "b3" = true /\ Note.note "b3" = Ok 59 /\
   note_fields "b3" = Some ("b", 3) /\
   Sample.note_to_freq "b" 3 440 = Raise (KeyError "b") /\
   ~ cross_check "b3") /\
  (well_shaped "Bb3" = true /\ Note.note "Bb3" = Ok 58 /\
   note_fields "Bb3" = Some ("Bb", 3) /\
   Sample.note_to_freq "Bb" 3 440 = Raise (KeyError "Bb") /\
   ~ cross_check "Bb3").
Proof.
  assert (Hb : Sample.note_to_freq "b" 3 440 = Raise (KeyError "b"))
    by (apply note_to_freq_other; simpl; intuition discriminate).
  assert (HBb : Sample.note_to_freq "Bb" 3 440 = Raise (KeyError "Bb"))
    by (apply note_to_freq_other; simpl; intuition discriminate).
  split; (split; [reflexivity|]); (split; [vm_compute; reflexivity|]);
    (split; [vm_compute; reflexivity|]); (split; [assumption|]).
  - intros (m & name & octave & f & _ & Hf & Hq & _).
    vm_compute in Hf. injection Hf as <- <-. congruence.
  - intros (m & name & octave & f & _ & Hf & Hq & _).
    vm_compute in Hf. injection Hf as <- <-. congruence.
Qed.

(** ** Running computations *)

Lemma bind_Ok {A B} (c : M A) (k : A -> M B) w a w' :
  c w = (Ok a, w') -> (c ≫= k) w = k a w'.
Proof. intros H. unfold mbind, M_bind, bind. by rewrite H. Qed.

Lemma record_record w evs evs' :
  record (record w evs) evs' = record w (evs ++ evs').
Proof. unfold record. simpl. by rewrite app_assoc. Qed.

Lemma record_nil w : record w [] = w.
Proof. destruct w. unfold record. simpl. by rewrite app_nil_r. Qed.

Lemma commands_app t t' :
  commands (t ++ t') = (commands t ++ commands t')%list.
Proof.
  induction t as [|ev t IH]; [done|].
  destruct ev; simpl; by rewrite IH.
Qed.

Lemma sox_calls_app cs cs' :
  sox_calls (cs ++ cs') = (sox_calls cs ++ sox_calls cs')%list.
Proof.
  induction cs as [|c cs IH]; [done|].
  destruct c; simpl; by rewrite IH.
Qed.

Lemma sox_calls_map_Sox (l : list SoxArgs) : sox_calls (map Sox l) = l.
Proof. induction l as [|a l IH]; simpl; by rewrite ?IH. Qed.

(** ** The cents of a shift *)

Lemma shift_cents_of_ok self delta :
  (0 < Sample.freq self)%R -> (0 < Sample.freq self + IZR delta)%R ->
  Sample.shift_cents_of self delta = Ok (cents_for (Sample.freq self) delta).
Proof.
  intros Hf Hd. unfold Sample.shift_cents_of, cents_for.
  destruct (Z.eqb_spec delta 0) as [->|Hne]; simpl; [done|].
  destruct (Req_dec_T (Sample.freq self) 0) as [E|_]; [lra|].
  unfold math_log.
  assert (0 < (Sample.freq self + IZR delta) / Sample.freq self)%R
    by (apply Rdiv_lt_0_compat; lra).
  destruct (Rle_dec _ 0) as [E|_]; [lra|].
  destruct (Rle_dec 2 0) as [E|_]; [lra|]. reflexivity.
Qed.

Lemma shift_cents_of_nonneg self delta :
  (0 < Sample.freq self)%R -> 0 <= delta ->
  Sample.shift_cents_of self delta = Ok (cents_for (Sample.freq self) delta).
Proof.
  intros Hf Hd. apply shift_cents_of_ok; [done|].
  assert (0 <= IZR delta)%R by (apply IZR_le; lia). lra.
Qed.


Lemma transform_wav_run env self suffix start_s duration delta hz bits w c :
  Sample.shift_cents_of self delta = Ok c ->
  let wav_file := Sample.wav_file_of env self suffix delta in
  let line := PrintWriting wav_file hz bits c in
  let cmd := Sox {| sox_input := Sample.tmp_filename self;
                    sox_rate := hz; sox_bits := bits;
                    sox_output := wav_file; sox_pitch := c;
                    sox_trim_start := start_s;
                    sox_trim_duration := duration |} in
  Sample.transform_wav env self suffix start_s duration delta hz bits w =
  (Ok tt,
   record w [line; System cmd (exit_status env (trace w ++ [line]) cmd)]).
Proof.
  intros Hc wav_file line cmd. unfold Sample.transform_wav.
  erewrite bind_Ok by (unfold lift; rewrite Hc; reflexivity).
  erewrite bind_Ok by reflexivity.
  erewrite bind_Ok by reflexivity.
  unfold mret, M_ret, ret. by rewrite record_record.
Qed.



(** ** Labels *)

Lemma rsplit_None c s : contains c s = false -> rsplit c s = None.
Proof.
  induction s as [|a s IH]; simpl; [done|].
  intros H. apply orb_false_iff in H as [Ha Hs].
  by rewrite IH, Ha.
Qed.

Lemma rsplit_here c p t :
  contains c t = false -> rsplit c (p ++ String c t) = Some (p, t).
Proof.
  intros H. induction p as [|a p IH]; simpl.
  - by rewrite (rsplit_None _ _ H), Ascii.eqb_refl.
  - by rewrite IH.
Qed.

Lemma rsplit_prefix c p s a t :
  rsplit c s = Some (a, t) -> rsplit c (p ++ s) = Some (p ++ a, t).
Proof.
  intros H. induction p as [|x p IH]; simpl; [done|]. by rewrite IH.
Qed.

Lemma contains_uint c d :
  in_class "0123456789" c = false ->
  contains c (NilEmpty.string_of_uint d) = false.
Proof.
  intros H.
  induction d; cbn [NilEmpty.string_of_uint contains]; try done;
    rewrite IHd, orb_false_r;
    match goal with
    | |- Ascii.eqb ?a c = false =>
        destruct (Ascii.eqb_spec a c) as [<-|]; [discriminate H | done]
    end.
Qed.

(** [str(n)] holds digits and a minus sign only. *)
Lemma contains_str_int c z :
  in_class "-0123456789" c = false -> contains c (str_int z) = false.
Proof.
  intros H.
  unfold in_class in H. cbn [list_ascii_of_string existsb] in H.
  apply orb_false_iff in H as [Hm Hd]. rewrite Ascii.eqb_sym in Hm.
  change (in_class "0123456789" c = false) in Hd.
  assert (Hu : forall d, contains c (NilZero.string_of_uint d) = false).
  { intros d. destruct d; try apply (contains_uint c _ Hd).
    cbn [NilZero.string_of_uint contains]. rewrite orb_false_r.
    destruct (Ascii.eqb_spec "0" c) as [<-|]; [discriminate Hd | done]. }
  unfold str_int.
  destruct (Z.to_int z); cbn [NilZero.string_of_int contains]; [apply Hu|].
  by rewrite Hm, Hu.
Qed.

Lemma str_int_inj z z' : str_int z = str_int z' -> z = z'.
Proof.
  intros H. apply DecimalZ.to_int_inj.
  assert (Hn : forall z, Z.to_int z <> Decimal.Pos Decimal.Nil /\
                         Z.to_int z <> Decimal.Neg Decimal.Nil).
  { intros [|p|p]; simpl; split; try discriminate;
      intros [= E]; by apply DecimalPos.Unsigned.to_uint_nonnil in E. }
  apply (f_equal NilZero.int_of_string) in H. unfold str_int in H.
  rewrite !NilZero.isi in H by apply Hn. congruence.
Qed.

Lemma wav_file_of_filename env self suffix delta :
  Sample.wav_file_of env self suffix delta =
  filename env (Sample.name self) (Sample.freq self + IZR delta) delta suffix.
Proof. reflexivity. Qed.

Lemma filename_inj env n f f' delta delta' seg seg' :
  In seg segment_labels -> In seg' segment_labels ->
  filename env n f delta seg = filename env n f' delta' seg' ->
  delta = delta' /\ seg = seg'.
Proof.
  intros Hs Hs' E. unfold filename in E.
  assert (Hcut : forall f delta seg, In seg segment_labels ->
            rsplit "-" (n ++ "-" ++ format_3f env f ++ "-S" ++
                        str_int delta ++ "-" ++ seg ++ ".wav") =
            Some (n ++ "-" ++ format_3f env f ++ "-S" ++ str_int delta,
                  seg ++ ".wav")).
  { clear. intros f delta seg Hs.
    do 2 apply rsplit_prefix. apply (rsplit_prefix _ (format_3f env f)).
    apply (rsplit_prefix _ "-S"). apply rsplit_here.
    simpl in Hs. repeat (destruct Hs as [<-|Hs]; [reflexivity|]).
    contradiction. }
  assert (Hcut' : forall f delta,
            rsplit "S" (n ++ "-" ++ format_3f env f ++ "-S" ++
                        str_int delta) =
            Some (n ++ "-" ++ format_3f env f ++ "-", str_int delta)).
  { clear. intros f delta.
    apply rsplit_prefix, (rsplit_prefix _ "-"), rsplit_prefix.
    apply (rsplit_here "S" "-"), contains_str_int. reflexivity. }
  apply (f_equal (rsplit "-")) in E.
  rewrite !Hcut in E by done. injection E as E1 E2.
  apply (f_equal (rsplit "S")) in E1. rewrite !Hcut' in E1.
  injection E1 as _ E1. apply str_int_inj in E1. split; [done|].
  simpl in Hs, Hs'.
  repeat (destruct Hs as [<-|Hs]; [|]);
    repeat (destruct Hs' as [<-|Hs']; [|]);
    try contradiction; try reflexivity; discriminate.
Qed.

(** ** The augmentation plan *)

Lemma augmentation_plan_cons delta offsets :
  augmentation_plan (delta :: offsets) =
  (mkInstruction "attack" 0 0.33 delta ::
   mkInstruction "sustain" 0.33 0.33 delta ::
   mkInstruction "decay" 0.66 0.33 delta ::
   augmentation_plan offsets)%R.
Proof. reflexivity. Qed.

Lemma augmentation_plan_length offsets :
  length (augmentation_plan offsets) = (3 * length offsets)%nat.
Proof.
  induction offsets as [|delta offsets IH]; [done|].
  rewrite augmentation_plan_cons. simpl length. lia.
Qed.

Lemma augmentation_plan_In ins offsets :
  In ins (augmentation_plan offsets) <->
  In (seg_label ins, seg_start ins, seg_duration ins) segments /\
  In (shift_hz ins) offsets.
Proof.
  induction offsets as [|delta offsets IH].
  - simpl. tauto.
  - rewrite augmentation_plan_cons. simpl. rewrite IH. simpl. split.
    + intros [<-|[<-|[<-|[H1 H2]]]]; simpl; tauto.
    + destruct ins as [l s d z]. simpl.
      intros [Hs [<-|Ho]]; [|tauto].
      destruct Hs as [[= <- <- <-]|[[= <- <- <-]|[[= <- <- <-]|[]]]]; auto.
Qed.

Lemma augmentation_plan_label ins offsets :
  In ins (augmentation_plan offsets) -> In (seg_label ins) segment_labels.
Proof.
  intros H. apply augmentation_plan_In in H as [H _].
  apply (in_map (fun s => fst (fst s))) in H. exact H.
Qed.

(** An instruction of a plan is determined by its label and its offset. *)
Lemma augmentation_plan_inj ins ins' offsets offsets' :
  In ins (augmentation_plan offsets) ->
  In ins' (augmentation_plan offsets') ->
  seg_label ins = seg_label ins' -> shift_hz ins = shift_hz ins' ->
  ins = ins'.
Proof.
  intros H H' Hl Hz.
  apply augmentation_plan_In in H as [H _].
  apply augmentation_plan_In in H' as [H' _].
  destruct ins as [l s d z], ins' as [l' s' d' z']. simpl in *.
  destruct H as [H|[H|[H|[]]]]; destruct H' as [H'|[H'|[H'|[]]]];
    inversion H; inversion H'; subst; try discriminate; reflexivity.
Qed.

Lemma augmentation_plan_NoDup offsets :
  NoDup offsets -> NoDup (augmentation_plan offsets).
Proof.
  induction 1 as [|delta offsets Hd _ IH]; [constructor|].
  rewrite augmentation_plan_cons.
  assert (Hn : forall l s d,
             mkInstruction l s d delta ∉ augmentation_plan offsets).
  { intros l s d Hin. apply list_elem_of_In, augmentation_plan_In in Hin.
    apply Hd, list_elem_of_In, Hin. }
  repeat (apply NoDup_cons; split;
          [rewrite ?not_elem_of_cons; repeat split;
           try discriminate; apply Hn|]).
  exact IH.
Qed.

(** C7: the name of an artifact is the function
    [<job-name>-<frequency:.3f>-S<shift_hz>-<segment-label>.wav] of the
    job's name, the resulting frequency (base frequency + shift), the
    shift and the segment label; for one job it is distinct for distinct
    (shift, segment) pairs, so the names of a plan over distinct offsets
    are pairwise distinct. *)
Theorem wav_file_label :
  forall env self,
    (forall suffix delta,
       Sample.wav_file_of env self suffix delta =
       filename env (Sample.name self) (Sample.freq self + IZR delta)
                delta suffix) /\
    (forall ins, sox_output (sox_args_for env self ins) =
       filename env (Sample.name self)
                (Sample.freq self + IZR (shift_hz ins)) (shift_hz ins)
                (seg_label ins)) /\
    (forall seg seg' delta delta',
       In seg segment_labels -> In seg' segment_labels ->
       Sample.wav_file_of env self seg delta =
       Sample.wav_file_of env self seg' delta' ->
       delta = delta' /\ seg = seg') /\
    (forall offsets,
       NoDup offsets ->
       NoDup (map (fun ins => sox_output (sox_args_for env self ins))
                  (augmentation_plan offsets))).
Proof.
  intros env self. split; [reflexivity|]. split; [reflexivity|]. split.
  - intros seg seg' delta delta' Hs Hs' E.
    rewrite !wav_file_of_filename in E. eapply filename_inj; eauto.
  - intros offsets Hd. apply NoDup_ListNoDup, NoDup_map_NoDup_ForallPairs.
    + intros ins ins' Hi Hi' E. simpl in E.
      rewrite !wav_file_of_filename in E.
      apply filename_inj in E as [E1 E2];
        eauto using augmentation_plan_label, augmentation_plan_inj.
    + by apply NoDup_ListNoDup, augmentation_plan_NoDup.
Qed.

Lemma wav_file_label_witness :
  In "attack" segment_labels /\ In "decay" segment_labels /\
  NoDup [0; 10; 25] /\
  NoDup (map (fun ins => sox_output
                (sox_args_for (example_env 0) example_sample ins))
             (augmentation_plan [0; 10; 25])).
Proof.
  assert (Hd : NoDup [0; 10; 25])
    by (apply (bool_decide_unpack _); vm_compute; exact I).
  split; [simpl; tauto|]. split; [simpl; tauto|]. split; [exact Hd|].
  exact (proj2 (proj2 (proj2 (wav_file_label (example_env 0) example_sample)))
           [0; 10; 25] Hd).
Defined.

(** ** One job *)

Lemma str_int_digit octave :
  0 <= octave <= 9 ->
  exists d, str_int octave = String d "" /\
            in_class "0123456789" d = true /\ int_of_digit d = octave.
Proof.
  intros H.
  assert (octave = 0 \/ octave = 1 \/ octave = 2 \/ octave = 3 \/
          octave = 4 \/ octave = 5 \/ octave = 6 \/ octave = 7 \/
          octave = 8 \/ octave = 9) as Hc by lia.
  repeat (destruct Hc as [->|Hc]; [eexists; repeat split; reflexivity|]).
  subst. eexists; repeat split; reflexivity.
Qed.

Lemma Rpower_2_pos x : (0 < 440 * Rpower 2 x)%R.
Proof. apply Rmult_lt_0_compat; [lra | apply exp_pos]. Qed.

(** [Sample.__init__] succeeds for a name of the table and an octave
    digit, as in [main]; the score is one beat at 60 beats per minute. *)
Lemma job_sample_ok octave program key :
  In key Note.names -> 0 <= octave <= 9 ->
  exists self pitch,
    job_sample octave program key = Ok self /\
    (0 < Sample.freq self)%R /\
    Sample.name self = job_name octave program key /\
    eventList (Sample.file self) =
      [AddTempo 0 0 60; AddProgramChange 0 0 0 program;
       AddNote 0 0 pitch 0 1 100].
Proof.
  intros Hk Ho.
  apply list_elem_of_In, list_elem_of_lookup in Hk as [i Hi].
  destruct (str_int_digit _ Ho) as (d & Hs & Hd & Hv).
  destruct (note_of_table_name _ _ d Hi Hd) as [Hn _].
  unfold job_sample, Sample.init.
  rewrite (note_to_freq_names _ _ octave 440 Hi ltac:(lia)), Hs, Hn.
  eexists _, _. split; [reflexivity|]. simpl.
  split; [apply Rpower_2_pos|done].
Qed.

(** The [sox] invocations in the events of a job, given the commands of
    its loop over the offsets. *)
Lemma plan_sox_calls env self evs plan :
  commands evs = map (fun ins => Sox (sox_args_for env self ins)) plan ->
  sox_calls (commands (evs ++ [PrintDot])) = map (sox_args_for env self) plan.
Proof.
  intros H. rewrite commands_app, H, sox_calls_app. cbn [commands sox_calls].
  rewrite app_nil_r, <- (map_map (sox_args_for env self) Sox).
  apply sox_calls_map_Sox.
Qed.

(** The name, the start and the duration of each [sox] invocation of a
    plan: for every offset, attack, sustain and decay in this order. *)
Lemma plan_trims env self offsets :
  map (fun a => (sox_output a, sox_trim_start a, sox_trim_duration a))
      (map (sox_args_for env self) (augmentation_plan offsets)) =
  flat_map (fun delta =>
              [(Sample.wav_file_of env self "attack" delta, 0, 0.33);
               (Sample.wav_file_of env self "sustain" delta, 0.33, 0.33);
               (Sample.wav_file_of env self "decay" delta, 0.66, 0.33)]%R)
           offsets.
Proof.
  induction offsets as [|delta offsets IH]; [reflexivity|].
  rewrite augmentation_plan_cons. cbn [map flat_map app].
  rewrite IH. reflexivity.
Qed.

(** The windows the [sox] invocations of a plan trim: each is one of the
    three, and with at least one offset each of the three is trimmed. *)
Lemma plan_trim_windows env self offsets a :
  In a (map (sox_args_for env self) (augmentation_plan offsets)) ->
  trim_window a = (0, 0.33)%R \/ trim_window a = (0.33, 0.66)%R \/
  trim_window a = (0.66, 0.99)%R.
Proof.
  intros Ha. apply in_map_iff in Ha as (ins & <- & Hi).
  apply augmentation_plan_In in Hi as [Hi _]. destruct ins as [l s d z].
  unfold trim_window. simpl in *.
  destruct Hi as [[= <- <- <-]|[[= <- <- <-]|[[= <- <- <-]|[]]]];
    [left|right; left|right; right]; f_equal; lra.
Qed.

Lemma plan_trims_all env self delta offsets :
  exists a b c,
    let calls := map (sox_args_for env self)
                     (augmentation_plan (delta :: offsets)) in
    In a calls /\ In b calls /\ In c calls /\
    trim_window a = (0, 0.33)%R /\ trim_window b = (0.33, 0.66)%R /\
    trim_window c = (0.66, 0.99)%R.
Proof.
  rewrite augmentation_plan_cons.
  eexists _, _, _. cbn [map]. cbn zeta.
  split; [left; reflexivity|]. split; [right; left; reflexivity|].
  split; [right; right; left; reflexivity|].
  unfold trim_window. simpl. repeat split; f_equal; lra.
Qed.

Section Job.

Variable env : Env.
Hypothesis env_contract : env_ok env.

Lemma shift_loop_run self offsets :
  (0 < Sample.freq self)%R ->
  Forall (fun delta => 0 <= delta) offsets ->
  forall w, exists evs,
    for_ offsets (fun pitch_shift_hz =>
      Sample.transform_wav env self "attack" 0 0.33 pitch_shift_hz
                           44100 16 ;;
      Sample.transform_wav env self "sustain" 0.33 0.33 pitch_shift_hz
                           44100 16 ;;
      Sample.transform_wav env self "decay" 0.66 0.33 pitch_shift_hz
                           44100 16) w = (Ok tt, record w evs) /\
    commands evs =
    map (fun ins => Sox (sox_args_for env self ins))
        (augmentation_plan offsets).
Proof.
  intros Hf. induction 1 as [|delta offsets Hd _ IH]; intros w.
  - exists []. by rewrite record_nil.
  - pose proof (shift_cents_of_nonneg self delta Hf Hd) as Hc.
    cbn [for_].
    erewrite bind_Ok; cycle 1.
    { erewrite bind_Ok by (apply transform_wav_run; exact Hc).
      erewrite bind_Ok by (apply transform_wav_run; exact Hc).
      rewrite (transform_wav_run _ _ _ _ _ _ _ _ _ _ Hc).
      rewrite !record_record. reflexivity. }
    match goal with
    | |- context [for_ offsets _ ?w'] =>
        destruct (IH w') as (evs & Hrun & Hcmd)
    end.
    rewrite Hrun, record_record. eexists. split; [reflexivity|].
    rewrite commands_app, Hcmd, augmentation_plan_cons. reflexivity.
Qed.

(** What a job does: it writes the score, renders it, and whatever the
    exit status of the renderer, carries out the plan over the offsets
    0 and the five draws. *)
Lemma job_run octave program key w :
  In key Note.names -> 0 <= octave <= 9 ->
  exists self evs,
    let draws := randint env (np_random w) 10 80 5 in
    job_sample octave program key = Ok self /\
    job env octave program key w =
      (Ok tt,
       {| py_random := py_random w; np_random := S (np_random w);
          GM_PATCHES := GM_PATCHES w;
          trace := trace w ++
                   WriteFile (Sample.mid_filename self) (Sample.file self) ::
                   System (render_cmd self) (render_status env w self) ::
                   evs ++ [PrintDot] |}) /\
    commands evs =
      map (fun ins => Sox (sox_args_for env self ins))
          (augmentation_plan (0 :: draws)) /\
    length draws = 5%nat /\
    (forall x, In x draws -> 10 <= x <= 79).
Proof.
  intros Hk Ho.
  destruct (job_sample_ok octave program key Hk Ho)
    as (self & pitch & Hs & Hf & _).
  set (draws := randint env (np_random w) 10 80 5).
  assert (Hr : forall x, In x draws -> 10 <= x <= 79).
  { intros x Hx. apply (randint_range _ env_contract) in Hx; lia. }
  assert (Hpos : Forall (fun delta => 0 <= delta) (0 :: draws)).
  { constructor; [lia|]. apply Forall_forall. intros x Hx.
    apply list_elem_of_In, Hr in Hx. lia. }
  set (w1 := record w [WriteFile (Sample.mid_filename self) (Sample.file self);
                       System (render_cmd self) (render_status env w self)]).
  set (w2 := {| py_random := py_random w1; np_random := S (np_random w1);
                GM_PATCHES := GM_PATCHES w1; trace := trace w1 |}).
  destruct (shift_loop_run self _ Hf Hpos w2) as (evs & Hrun & Hcmd).
  exists self, evs. cbn zeta. split; [exact Hs|].
  split; [|split; [exact Hcmd|split;
                   [apply (randint_length _ env_contract)|exact Hr]]].
  unfold job. fold (job_name octave program key).
  fold (job_sample octave program key).
  erewrite bind_Ok by (unfold lift; rewrite Hs; reflexivity).
  erewrite bind_Ok; cycle 1.
  { unfold Sample.make_wav, Sample.save.
    erewrite bind_Ok by reflexivity. erewrite bind_Ok by reflexivity.
    unfold mret, M_ret, ret. rewrite record_record. reflexivity. }
  erewrite bind_Ok by reflexivity.
  erewrite bind_Ok by exact Hrun.
  unfold Sample.clean, emit. rewrite record_record.
  unfold record, w2, w1, record. simpl. rewrite <- !app_assoc. reflexivity.
Qed.

(** C8: every job shifts by 5 + 1 offsets, the baseline 0 and the 5 draws
    of [np.random.randint(10, 80, 5)] (integers from 10 to 79), and pairs
    each offset with each of the three segments: 3 (5 + 1) = 18 [sox]
    invocations, those of the plan, in order. *)
Theorem job_augmentation_plan :
  forall octave program key w,
    In key Note.names -> 0 <= octave <= 9 ->
    exists self w' evs draws,
      job_sample octave program key = Ok self /\
      job env octave program key w = (Ok tt, w') /\
      trace w' = (trace w ++ evs)%list /\
      draws = randint env (np_random w) 10 80 5 /\
      length draws = 5%nat /\
      (forall x, In x draws -> 10 <= x <= 79) /\
      sox_calls (commands evs) =
        map (sox_args_for env self) (augmentation_plan (0 :: draws)) /\
      length (augmentation_plan (0 :: draws)) = (3 * (5 + 1))%nat.
Proof.
  intros octave program key w Hk Ho.
  destruct (job_run octave program key w Hk Ho)
    as (self & evs & Hs & Hrun & Hcmd & Hlen & Hr).
  eexists self, _, _, _. split; [exact Hs|]. split; [exact Hrun|].
  split; [reflexivity|]. split; [reflexivity|]. split; [exact Hlen|].
  split; [exact Hr|]. split.
  - cbn [commands sox_calls render_cmd]. by apply plan_sox_calls.
  - rewrite augmentation_plan_length. cbn [length]. rewrite Hlen. reflexivity.
Qed.

(** C1, as the code has it: [make_wav] drops the exit status of the
    renderer.  Whatever that status is, the job raises nothing and goes on
    to attempt the 18 [sox] invocations of its plan. *)
Theorem render_status_ignored :
  forall octave program key w,
    In key Note.names -> 0 <= octave <= 9 ->
    exists self w' evs,
      job_sample octave program key = Ok self /\
      job env octave program key w = (Ok tt, w') /\
      trace w' =
        (trace w ++
         WriteFile (Sample.mid_filename self) (Sample.file self) ::
         System (render_cmd self) (render_status env w self) :: evs)%list /\
      length (sox_calls (commands evs)) = 18%nat.
Proof.
  intros octave program key w Hk Ho.
  destruct (job_run octave program key w Hk Ho)
    as (self & evs & Hs & Hrun & Hcmd & Hlen & _).
  eexists self, _, _. split; [exact Hs|]. split; [exact Hrun|].
  split; [reflexivity|].
  rewrite (plan_sox_calls _ _ _ _ Hcmd), length_map, augmentation_plan_length.
  cbn [length]. rewrite Hlen. reflexivity.
Qed.

End Job.

Lemma example_env_ok status : env_ok (example_env status).
Proof.
  split; simpl.
  - intros g low high size. by rewrite length_map, length_seq.
  - intros g low high size x Hlt Hx. apply in_map_iff in Hx as (i & <- & _).
    pose proof (Z.mod_pos_bound (7 * Z.of_nat (g + i)) (high - low)). lia.
  - intros g l. symmetry. apply Permutation_rev.
Qed.

Lemma job_augmentation_plan_witness :
  env_ok (example_env 0) /\ In "A" Note.names /\ 0 <= 4 <= 9 /\
  exists self w' evs draws,
    job_sample 4 0 "A" = Ok self /\
    job (example_env 0) 4 0 "A" initial_world = (Ok tt, w') /\
    trace w' = (trace initial_world ++ evs)%list /\
    draws = randint (example_env 0) (np_random initial_world) 10 80 5 /\
    length draws = 5%nat /\
    (forall x, In x draws -> 10 <= x <= 79) /\
    sox_calls (commands evs) =
      map (sox_args_for (example_env 0) self)
          (augmentation_plan (0 :: draws)) /\
    length (augmentation_plan (0 :: draws)) = (3 * (5 + 1))%nat.
Proof.
  assert (H1 : In "A" Note.names) by (simpl; tauto).
  assert (H2 : 0 <= 4 <= 9) by lia.
  split; [apply example_env_ok|]. split; [exact H1|]. split; [exact H2|].
  exact (job_augmentation_plan (example_env 0) (example_env_ok 0) 4 0 "A"
           initial_world H1 H2).
Defined.

Lemma render_status_ignored_witness :
  env_ok (example_env 0) /\ In "A" Note.names /\ 0 <= 4 <= 9 /\
  exists self w' evs,
    job_sample 4 0 "A" = Ok self /\
    job (example_env 0) 4 0 "A" initial_world = (Ok tt, w') /\
    trace w' =
      (trace initial_world ++
       WriteFile (Sample.mid_filename self) (Sample.file self) ::
       System (render_cmd self)
              (render_status (example_env 0) initial_world self) ::
       evs)%list /\
    length (sox_calls (commands evs)) = 18%nat.
Proof.
  assert (H1 : In "A" Note.names) by (simpl; tauto).
  assert (H2 : 0 <= 4 <= 9) by lia.
  split; [apply example_env_ok|]. split; [exact H1|]. split; [exact H2|].
  exact (render_status_ignored (example_env 0) (example_env_ok 0) 4 0 "A"
           initial_world H1 H2).
Defined.

(** C1 as stated fails: in a world where the renderer exits with status
    1, the job of the note A4 raises nothing (no failure is surfaced) and
    still issues its 18 [sox] invocations. *)
Lemma render_failure_not_surfaced :
  exists self w' evs,
    job_sample 4 0 "A" = Ok self /\
    render_status (example_env 1) initial_world self = 1 /\
    job (example_env 1) 4 0 "A" initial_world = (Ok tt, w') /\
    trace w' =
      (WriteFile (Sample.mid_filename self) (Sample.file self) ::
       System (render_cmd self) 1 :: evs)%list /\
    length (sox_calls (commands evs)) = 18%nat.
Proof.
  assert (H1 : In "A" Note.names) by (simpl; tauto).
  assert (H2 : 0 <= 4 <= 9) by lia.
  destruct (job_run (example_env 1) (example_env_ok 1) 4 0 "A"
              initial_world H1 H2)
    as (self & evs & Hs & Hrun & Hcmd & Hlen & _).
  eexists self, _, _. split; [exact Hs|]. split; [reflexivity|].
  split; [exact Hrun|]. split; [reflexivity|].
  rewrite (plan_sox_calls _ _ _ _ Hcmd), length_map, augmentation_plan_length.
  cbn [length]. rewrite Hlen. reflexivity.
Qed.

(** ** The segments *)

(** C9: every job renders one beat at 60 beats per minute (a one-second
    clip), and for each of its offsets its [sox] invocations trim, in this
    order, the attack from 0 s, the sustain from 0.33 s and the decay from
    0.66 s, each for 0.33 s, into the file that carries the segment's
    label.  The windows a job trims do not overlap unless they are the
    same window, and together they cover exactly [0, 0.99]. *)
Theorem segment_windows :
  forall env octave program key w,
    env_ok env -> In key Note.names -> 0 <= octave <= 9 ->
    exists self w' evs pitch draws,
      job_sample octave program key = Ok self /\
      eventList (Sample.file self) =
        [AddTempo 0 0 60; AddProgramChange 0 0 0 program;
         AddNote 0 0 pitch 0 1 100] /\
      job env octave program key w = (Ok tt, w') /\
      trace w' = (trace w ++ evs)%list /\
      draws = randint env (np_random w) 10 80 5 /\
      map (fun a => (sox_output a, sox_trim_start a, sox_trim_duration a))
          (sox_calls (commands evs)) =
      flat_map (fun delta =>
                  [(Sample.wav_file_of env self "attack" delta, 0, 0.33);
                   (Sample.wav_file_of env self "sustain" delta, 0.33, 0.33);
                   (Sample.wav_file_of env self "decay" delta, 0.66, 0.33)]%R)
               (0 :: draws) /\
      (forall a b,
         In a (sox_calls (commands evs)) -> In b (sox_calls (commands evs)) ->
         trim_window a <> trim_window b ->
         ~ overlap (trim_window a) (trim_window b)) /\
      (forall t, (0 <= t <= 0.99)%R <->
                 exists a, In a (sox_calls (commands evs)) /\
                           in_window t (trim_window a)).
Proof.
  intros env octave program key w Henv Hk Ho.
  destruct (job_run env Henv octave program key w Hk Ho)
    as (self & evs & Hs & Hrun & Hcmd & _).
  destruct (job_sample_ok octave program key Hk Ho)
    as (self' & pitch & Hs' & _ & _ & Hfile).
  rewrite Hs in Hs'. injection Hs' as <-.
  eexists self, _, _, pitch, _. split; [exact Hs|]. split; [exact Hfile|].
  split; [exact Hrun|]. split; [reflexivity|]. split; [reflexivity|].
  cbn [commands sox_calls render_cmd]. rewrite (plan_sox_calls _ _ _ _ Hcmd).
  split; [apply plan_trims|]. split.
  - intros a b Ha Hb Hne (t & Hta & Htb).
    apply plan_trim_windows in Ha, Hb.
    destruct Ha as [Ea|[Ea|Ea]]; destruct Hb as [Eb|[Eb|Eb]];
      rewrite Ea, Eb in *; try (by apply Hne); simpl in Hta, Htb; lra.
  - intros t.
    destruct (plan_trims_all env self 0 (randint env (np_random w) 10 80 5))
      as (a & b & c & Ha & Hb & Hc & Ea & Eb & Ec).
    cbn zeta in Ha, Hb, Hc. split.
    + intros Ht.
      destruct (Rle_dec t 0.33) as [H1|H1];
        [exists a|destruct (Rle_dec t 0.66) as [H2|H2]; [exists b|exists c]];
        (split; [assumption|]); unfold in_window;
        [rewrite Ea|rewrite Eb|rewrite Ec]; simpl; lra.
    + intros (x & Hx & Ht). apply plan_trim_windows in Hx.
      unfold in_window in Ht.
      destruct Hx as [E|[E|E]]; rewrite E in Ht; simpl in Ht; lra.
Qed.

Lemma segment_windows_witness :
  env_ok (example_env 0) /\ In "Cs" Note.names /\ 0 <= 4 <= 9 /\
  exists self w' evs pitch draws,
    job_sample 4 0 "Cs" = Ok self /\
    eventList (Sample.file self) =
      [AddTempo 0 0 60; AddProgramChange 0 0 0 0;
       AddNote 0 0 pitch 0 1 100] /\
    job (example_env 0) 4 0 "Cs" initial_world = (Ok tt, w') /\
    trace w' = (trace initial_world ++ evs)%list /\
    draws = randint (example_env 0) (np_random initial_world) 10 80 5 /\
    map (fun a => (sox_output a, sox_trim_start a, sox_trim_duration a))
        (sox_calls (commands evs)) =
    flat_map (fun delta =>
                [(Sample.wav_file_of (example_env 0) self "attack" delta,
                  0, 0.33);
                 (Sample.wav_file_of (example_env 0) self "sustain" delta,
                  0.33, 0.33);
                 (Sample.wav_file_of (example_env 0) self "decay" delta,
                  0.66, 0.33)]%R)
             (0 :: draws) /\
    (forall a b,
       In a (sox_calls (commands evs)) -> In b (sox_calls (commands evs)) ->
       trim_window a <> trim_window b ->
       ~ overlap (trim_window a) (trim_window b)) /\
    (forall t, (0 <= t <= 0.99)%R <->
               exists a, In a (sox_calls (commands evs)) /\
                         in_window t (trim_window a)).
Proof.
  assert (H1 : In "Cs" Note.names) by (simpl; tauto).
  assert (H2 : 0 <= 4 <= 9) by lia.
  split; [apply example_env_ok|]. split; [exact H1|]. split; [exact H2|].
  exact (segment_windows (example_env 0) 4 0 "Cs" initial_world
           (example_env_ok 0) H1 H2).
Defined.

(** ** The whole run *)

(** A loop whose every turn returns, keeps an invariant and issues [n]
    [sox] invocations, returns, keeps the invariant and issues [n] times
    the number of turns. *)
Lemma for_sox_calls {A} (l : list A) (body : A -> M unit)
    (P : World -> Prop) (n : nat) :
  (forall x w, In x l -> P w ->
     exists w' evs, body x w = (Ok tt, w') /\ P w' /\
       trace w' = (trace w ++ evs)%list /\
       length (sox_calls (commands evs)) = n) ->
  forall w, P w ->
    exists w' evs, for_ l body w = (Ok tt, w') /\ P w' /\
      trace w' = (trace w ++ evs)%list /\
      length (sox_calls (commands evs)) = (n * length l)%nat.
Proof.
  induction l as [|x l IH]; intros Hbody w Hw.
  - exists w, []. rewrite app_nil_r. simpl. repeat split; [done|lia].
  - destruct (Hbody x w (or_introl eq_refl) Hw)
      as (w1 & evs1 & Hrun1 & Hw1 & Ht1 & Hn1).
    destruct (IH (fun y w' Hy => Hbody y w' (or_intror Hy)) w1 Hw1)
      as (w2 & evs2 & Hrun2 & Hw2 & Ht2 & Hn2).
    exists w2, (evs1 ++ evs2)%list. cbn [for_].
    erewrite bind_Ok by exact Hrun1. split; [exact Hrun2|].
    split; [exact Hw2|]. split; [by rewrite Ht2, Ht1, app_assoc|].
    rewrite commands_app, sox_calls_app, length_app, Hn1, Hn2.
    cbn [length]. lia.
Qed.

Lemma range_In a b x : In x (range a b) <-> a <= x < b.
Proof.
  unfold range. rewrite in_map_iff. split.
  - intros (i & <- & Hi). apply in_seq in Hi. lia.
  - intros H. exists (Z.to_nat (x - a)). split; [lia|].
    apply in_seq. lia.
Qed.

Lemma GM_PATCHES_get_ok i w :
  0 <= i < Z.of_nat (length (GM_PATCHES w)) ->
  exists p, GM_PATCHES_get i w = (Ok p, w) /\ In p (GM_PATCHES w).
Proof.
  intros H. unfold GM_PATCHES_get.
  destruct (Z.ltb_spec i 0) as [?|_]; [lia|].
  destruct (Z.ltb_spec i 0) as [?|_]; [lia|].
  destruct (Z.leb_spec (Z.of_nat (length (GM_PATCHES w))) i) as [?|_]; [lia|].
  simpl. destruct (GM_PATCHES w !! Z.to_nat i) as [p|] eqn:E.
  - exists p. split; [done|]. apply list_elem_of_In.
    by eapply list_elem_of_lookup_2.
  - apply lookup_ge_None in E. lia.
Qed.

Section Run.

Variable env : Env.
Hypothesis env_contract : env_ok env.

Lemma names_loop_run octave program w :
  0 <= octave <= 9 -> length (GM_PATCHES w) = 25%nat ->
  exists w' evs,
    for_ Note.names (fun key => job env octave program key) w = (Ok tt, w') /\
    patches_kept w w' /\
    trace w' = (trace w ++ evs)%list /\
    length (sox_calls (commands evs)) = (18 * length Note.names)%nat.
Proof.
  intros Ho Hw. apply (for_sox_calls _ _ (patches_kept w)); [|done].
  intros key w1 Hk [Hw1 Hg1].
  destruct (job_run env env_contract octave program key w1 Hk Ho)
    as (self & evs & _ & Hrun & Hcmd & Hlen & _).
  eexists _, _. split; [exact Hrun|]. split; [done|]. split; [reflexivity|].
  cbn [commands sox_calls render_cmd].
  rewrite (plan_sox_calls _ _ _ _ Hcmd), length_map, augmentation_plan_length.
  cbn [length]. rewrite Hlen. reflexivity.
Qed.

Lemma patches_loop_run octave w :
  0 <= octave <= 9 -> length (GM_PATCHES w) = 25%nat ->
  exists w' evs,
    for_ (range 0 15) (fun patch =>
      program ← GM_PATCHES_get patch;
      for_ Note.names (fun key => job env octave program key)) w =
      (Ok tt, w') /\
    patches_kept w w' /\
    trace w' = (trace w ++ evs)%list /\
    length (sox_calls (commands evs)) =
      (18 * length Note.names * length (range 0 15))%nat.
Proof.
  intros Ho Hw. apply (for_sox_calls _ _ (patches_kept w)); [|done].
  intros patch w1 Hp [Hw1 Hg1]. apply range_In in Hp.
  destruct (GM_PATCHES_get_ok patch w1) as (p & Hget & _);
    [rewrite Hw1; lia|].
  destruct (names_loop_run octave p w1 Ho Hw1)
    as (w2 & evs & Hrun & [Hw2 Hg2] & Ht & Hn).
  exists w2, evs. erewrite bind_Ok by exact Hget.
  split; [exact Hrun|]. split; [split; [done|congruence]|]. done.
Qed.

(** [main] on the 25 patches: one pass over octave 4, the first 15 patches
    of the shuffled list and the 12 names; 180 jobs, each of which returns
    once its score is written, and 180 * 18 = 3240 [sox] invocations. *)
Lemma main_run :
  exists w',
    main env initial_world = (Ok tt, w') /\
    Permutation (GM_PATCHES w') GM_PATCHES_init /\
    length (sox_calls (commands (trace w'))) = 3240%nat.
Proof.
  unfold main. change (range 4 5) with [4]. cbn [for_].
  set (w1 := {| py_random := S (py_random initial_world);
                np_random := np_random initial_world;
                GM_PATCHES := shuffle env (py_random initial_world)
                                      (GM_PATCHES initial_world);
                trace := trace initial_world |}).
  assert (Hw1 : length (GM_PATCHES w1) = 25%nat).
  { unfold w1. cbn [GM_PATCHES].
    by rewrite (Permutation_length (shuffle_perm _ env_contract _ _)). }
  destruct (patches_loop_run 4 w1 ltac:(lia) Hw1)
    as (w2 & evs & Hrun & [_ Hg] & Ht & Hn).
  exists w2.
  erewrite bind_Ok; cycle 1.
  { erewrite bind_Ok by reflexivity. fold w1. exact Hrun. }
  split; [reflexivity|]. split.
  - rewrite Hg. apply (shuffle_perm _ env_contract).
  - rewrite Ht. cbn [trace w1 initial_world app]. rewrite Hn. reflexivity.
Qed.

End Run.

(** * Further properties of the code *)

(** ** Note.note *)

Lemma match_octave_groups c g r g1 g2 g3 :
  Note.match_octave c g r = Some (g1, g2, g3) ->
  g2 = g /\ In g3 (list_ascii_of_string "0123456789").
Proof.
  unfold Note.match_octave. destruct r as [|d r']; [discriminate|].
  destruct (in_class "0123456789" d) eqn:Ed; [|discriminate].
  destruct (Note.at_dollar r'); [|discriminate].
  intros [= _ <- <-]. split; [done|by apply in_class_In].
Qed.

Lemma re_match_groups s g1 g2 g3 :
  Note.re_match s = Some (g1, g2, g3) ->
  In g1 (list_ascii_of_string "ABCDEFGabcdefg") /\
  In g2 [""; "b"; "#"; "s"] /\
  In g3 (list_ascii_of_string "0123456789").
Proof.
  intros H. pose proof (re_match_letter _ _ _ _ H) as Hl.
  split; [by apply in_class_In|].
  destruct s as [|c rest]; [discriminate|]. simpl in H.
  destruct (in_class "ABCDEFGabcdefg" c); [|discriminate].
  destruct rest as [|a rest]; [discriminate|].
  destruct (in_class "b#s" a) eqn:Ea.
  - destruct (Note.match_octave c (String a "") rest) eqn:E1.
    + injection H as ->. apply match_octave_groups in E1 as [-> Hd].
      split; [|done]. apply in_class_In in Ea. simpl in Ea.
      destruct Ea as [<-|[<-|[<-|[]]]]; simpl; tauto.
    + apply match_octave_groups in H as [-> Hd]. simpl. tauto.
  - apply match_octave_groups in H as [-> Hd]. simpl. tauto.
Qed.

(** X1: [Note.note] returns exactly on the strings of the shape
    [<letter><accidental?><digit>], alone or followed by one newline; on
    every other string it raises [AttributeError], and it never raises
    [KeyError]. *)
Theorem note_accepts_exactly :
  forall s,
    (returns (Note.note s) <->
     well_shaped s = true \/ (well_shaped (chomp s) = true /\ s <> chomp s)) /\
    (returns (Note.note s) \/ Note.note s = Raise AttributeError).
Proof.
  intros s. split.
  - rewrite note_returns_iff. apply re_match_shape.
  - destruct (Note.re_match s) eqn:E.
    + left. apply note_returns_iff. congruence.
    + right. by apply note_raises_iff.
Qed.

(** X2: a pitch number [Note.note] returns lies between 11 and 132; both
    bounds are reached, so the result can exceed 127, the largest MIDI
    note number. *)
Theorem note_range :
  (forall s m, Note.note s = Ok m -> 11 <= m <= 132) /\
  Note.note "Cb0" = Ok 11 /\ Note.note "B#9" = Ok 132 /\
  Note.note "Gs9" = Ok 128.
Proof.
  split; [|repeat split; vm_compute; reflexivity].
  intros s m. unfold Note.note.
  destruct (Note.re_match s) as [[[g1 g2] g3]|] eqn:E; [|discriminate].
  apply re_match_groups in E as (H1 & H2 & H3). simpl in H1, H2, H3.
  repeat (destruct H1 as [<-|H1]; [|]); try contradiction;
    (repeat (destruct H2 as [<-|H2]; [|])); try contradiction;
    (repeat (destruct H3 as [<-|H3]; [|])); try contradiction;
    vm_compute; intros [= <-]; split; discriminate.
Qed.

Lemma note_range_witness :
  Note.note "A4" = Ok 69 /\ 11 <= 69 <= 132.
Proof.
  assert (H : Note.note "A4" = Ok 69) by (vm_compute; reflexivity).
  split; [exact H|]. exact (proj1 note_range "A4" 69 H).
Defined.

Lemma lower_ascii_class c :
  in_class "ABCDEFGabcdefg" (lower_ascii c) = in_class "ABCDEFGabcdefg" c.
Proof. destruct c as [[] [] [] [] [] [] [] []]; vm_compute; reflexivity. Qed.

Lemma lower_ascii_idem c : lower_ascii (lower_ascii c) = lower_ascii c.
Proof. destruct c as [[] [] [] [] [] [] [] []]; vm_compute; reflexivity. Qed.

Lemma re_match_lower c rest :
  Note.re_match (String (lower_ascii c) rest) =
  match Note.re_match (String c rest) with
  | Some (g1, g2, g3) => Some (lower_ascii g1, g2, g3)
  | None => None
  end.
Proof.
  unfold Note.re_match. rewrite lower_ascii_class.
  destruct (in_class "ABCDEFGabcdefg" c); [|reflexivity].
  destruct rest as [|a rest]; [reflexivity|]. unfold Note.match_octave.
  destruct (in_class "b#s" a).
  - destruct rest as [|d rest].
    + by destruct (in_class "0123456789" a && Note.at_dollar "")%bool.
    + destruct (in_class "0123456789" d && Note.at_dollar rest)%bool;
        [reflexivity|].
      by destruct (in_class "0123456789" a &&
                   Note.at_dollar (String d rest))%bool.
  - by destruct (in_class "0123456789" a && Note.at_dollar rest)%bool.
Qed.

(** X3: the letter of a note name is read in either case, and the two
    sharp signs [#] and [s] are read alike: changing the case of the first
    character, or one sharp sign for the other, changes neither the pitch
    number nor the failure. *)
Theorem note_spelling :
  forall c rest,
    Note.note (String c rest) = Note.note (String (lower_ascii c) rest) /\
    Note.note (String c (String "#" rest)) =
    Note.note (String c (String "s" rest)).
Proof.
  intros c rest. split.
  - unfold Note.note. rewrite re_match_lower.
    destruct (Note.re_match (String c rest)) as [[[g1 g2] g3]|]; [|reflexivity].
    cbn [lower]. by rewrite lower_ascii_idem.
  - unfold Note.note, Note.re_match.
    destruct (in_class "ABCDEFGabcdefg" c); [|reflexivity].
    change (in_class "b#s" "#") with true. change (in_class "b#s" "s") with true.
    unfold Note.match_octave.
    change (in_class "0123456789" "#") with false.
    change (in_class "0123456789" "s") with false.
    destruct rest as [|d rest]; [reflexivity|].
    destruct (in_class "0123456789" d && Note.at_dollar rest)%bool;
      reflexivity.
Qed.

(** ** Sample.note_to_freq *)

Lemma Rpower_2_lt x y : (x < y)%R <-> (Rpower 2 x < Rpower 2 y)%R.
Proof.
  assert (0 < ln 2)%R by (pose proof ln_lt_2; lra).
  unfold Rpower. split.
  - intros H'. apply exp_increasing. by apply Rmult_lt_compat_r.
  - intros H'. apply exp_lt_inv in H'.
    by apply Rmult_lt_reg_r in H'.
Qed.

(** X6: at the reference pitch of 440 Hz and in the octaves 0 to 9, those
    a [Sample] can have, the frequencies of the table are positive and
    strictly increasing in (octave, position in the table): a note is
    lower in frequency exactly when its octave is lower, or the octave is
    the same and its name comes earlier.  Distinct notes never share a
    frequency. *)
Theorem note_to_freq_increasing :
  forall i j n n' octave octave',
    Note.names !! i = Some n -> Note.names !! j = Some n' ->
    0 <= octave <= 9 -> 0 <= octave' <= 9 ->
    exists f f',
      Sample.note_to_freq n octave 440 = Ok f /\
      Sample.note_to_freq n' octave' 440 = Ok f' /\
      (0 < f)%R /\
      ((octave < octave' \/ (octave = octave' /\ (i < j)%nat)) <->
       (f < f')%R) /\
      (f = f' -> n = n' /\ octave = octave').
Proof.
  intros i j n n' octave octave' Hi Hj Ho Ho'.
  eexists _, _.
  split; [apply (note_to_freq_names _ _ _ _ Hi); lia|].
  split; [apply (note_to_freq_names _ _ _ _ Hj); lia|].
  pose proof (lookup_lt_Some _ _ _ Hi) as Hli.
  pose proof (lookup_lt_Some _ _ _ Hj) as Hlj.
  change (length Note.names) with 12%nat in Hli, Hlj.
  set (k := key_index i octave - 46). set (k' := key_index j octave' - 46).
  assert (Hlt : forall x y, (x < y) <->
            (440 * Rpower 2 (IZR x / 12) < 440 * Rpower 2 (IZR y / 12))%R).
  { intros x y. split.
    - intros H. apply Rmult_lt_compat_l; [lra|].
      apply (proj1 (Rpower_2_lt _ _)). apply IZR_lt in H. lra.
    - intros H. apply Rmult_lt_reg_l in H; [|lra].
      apply (proj2 (Rpower_2_lt _ _)) in H. apply lt_IZR. lra. }
  split; [|split].
  - apply Rpower_2_pos.
  - rewrite <- Hlt. unfold k, k', key_index. lia.
  - intros E.
    assert (k = k') as Hk.
    { destruct (Z.lt_trichotomy k k') as [H|[H|H]]; [|done|];
        apply Hlt in H; lra. }
    assert (octave = octave' /\ i = j) as [-> ->]
      by (unfold k, k', key_index in Hk; lia).
    split; [congruence|done].
Qed.

Lemma note_to_freq_increasing_witness :
  Note.names !! 11%nat = Some "B" /\ Note.names !! 0%nat = Some "C" /\
  0 <= 3 <= 9 /\ 0 <= 4 <= 9 /\
  exists f f',
    Sample.note_to_freq "B" 3 440 = Ok f /\
    Sample.note_to_freq "C" 4 440 = Ok f' /\
    (0 < f)%R /\
    ((3 < 4 \/ (3 = 4 /\ (11 < 0)%nat)) <-> (f < f')%R) /\
    (f = f' -> "B" = "C" /\ 3 = 4).
Proof.
  assert (H3 : 0 <= 3 <= 9) by lia.
  assert (H4 : 0 <= 4 <= 9) by lia.
  split; [reflexivity|]. split; [reflexivity|].
  split; [exact H3|]. split; [exact H4|].
  exact (note_to_freq_increasing 11%nat 0%nat "B" "C" 3 4 eq_refl eq_refl
           H3 H4).
Defined.

(** ** Sample.__init__ *)

Lemma contains_append c s t :
  contains c (s ++ t) = (contains c s || contains c t)%bool.
Proof.
  induction s as [|a s IH]; [done|].
  simpl. by rewrite IH, orb_assoc.
Qed.

Lemma chomp_no_newline s : contains newline s = false -> chomp s = s.
Proof.
  induction s as [|a s IH]; [done|]. cbn [contains]. intros H.
  apply orb_false_iff in H as [Ha Hs]. destruct s as [|b s].
  - cbn [chomp]. by rewrite Ha.
  - cbn [chomp] in *. by rewrite IH.
Qed.

Lemma contains_head c s : contains c (String c s) = true.
Proof. cbn [contains]. by rewrite Ascii.eqb_refl. Qed.

Lemma int_of_str_int z :
  NilZero.int_of_string (str_int z) = Some (Z.to_int z).
Proof.
  unfold str_int. apply NilZero.isi; destruct z as [|p|p]; simpl;
    try discriminate;
    intros [= E]; by apply DecimalPos.Unsigned.to_uint_nonnil in E.
Qed.

(** The decimal rendering of an integer is one digit only for 0..9. *)
Lemma str_int_one_digit octave d :
  str_int octave = String d "" -> 0 <= octave <= 9.
Proof.
  intros H.
  assert (Hd : in_class "-0123456789" d = true).
  { destruct (in_class "-0123456789" d) eqn:E; [done|].
    apply (contains_str_int d octave) in E.
    rewrite H, contains_head in E. discriminate. }
  apply in_class_In in Hd. simpl in Hd.
  destruct Hd as [<-|Hd].
  - apply (f_equal NilZero.int_of_string) in H.
    rewrite int_of_str_int in H. discriminate H.
  - repeat (destruct Hd as [<-|Hd];
            [match type of H with
             | str_int _ = String ?c "" =>
                 let z := eval vm_compute in (int_of_digit c) in
                 change (String c "") with (str_int z) in H;
                 apply str_int_inj in H; lia
             end|]).
    contradiction.
Qed.

Lemma well_shaped_inv s :
  well_shaped s = true ->
  exists l acc d,
    s = String l (acc ++ String d "") /\
    in_class "ABCDEFGabcdefg" l = true /\
    In acc [""; "b"; "#"; "s"] /\
    in_class "0123456789" d = true.
Proof.
  destruct s as [|l [|a [|d [|x t]]]]; try discriminate; cbn [well_shaped].
  - intros H. apply andb_true_iff in H as [Hl Hd].
    exists l, "", a. simpl. tauto.
  - intros H. apply andb_true_iff in H as [H Hd].
    apply andb_true_iff in H as [Hl Ha].
    exists l, (String a ""), d. split; [done|]. split; [done|].
    split; [|done]. apply in_class_In in Ha. simpl in Ha.
    destruct Ha as [<-|[<-|[<-|[]]]]; simpl; tauto.
Qed.

(** A name of the table followed by the decimal rendering of an integer
    is a note name only when the integer is a single digit. *)
Lemma note_of_key_octave key octave :
  In key Note.names ->
  returns (Note.note (key ++ str_int octave)) -> 0 <= octave <= 9.
Proof.
  intros Hk Hr. apply note_returns_iff, re_match_shape in Hr.
  assert (Hnl : contains newline (key ++ str_int octave) = false).
  { rewrite contains_append, contains_str_int by reflexivity.
    simpl in Hk. repeat (destruct Hk as [<-|Hk]; [reflexivity|]).
    contradiction. }
  rewrite (chomp_no_newline _ Hnl) in Hr.
  destruct Hr as [Hs|[_ Hne]]; [|done].
  assert (Hacc : forall a t, str_int octave = String a t ->
                   in_class "-0123456789" a = true).
  { intros a t E. destruct (in_class "-0123456789" a) eqn:Ea; [done|].
    apply (contains_str_int a octave) in Ea.
    rewrite E, contains_head in Ea. discriminate. }
  assert (Hne : str_int octave <> "").
  { intros E. apply (f_equal NilZero.int_of_string) in E.
    rewrite int_of_str_int in E. discriminate E. }
  destruct (well_shaped_inv _ Hs) as (l & acc & d & E & Hl & Ha & Hd).
  simpl in Hk, Ha.
  destruct Hk as [<-|[<-|[<-|[<-|[<-|[<-|[<-|[<-|[<-|[<-|[<-|[<-|[]]]]]]]]]]]]];
    destruct Ha as [<-|[<-|[<-|[<-|[]]]]];
    cbv [String.append] in E; injection E; intros; subst;
    first [ match goal with
            | H : str_int _ = String _ "" |- _ =>
                exact (str_int_one_digit _ _ H)
            end
          | congruence
          | by (vm_compute in Hd)
          | match goal with
            | H : str_int _ = String ?a _ |- _ =>
                specialize (Hacc _ _ H); vm_compute in Hacc; discriminate
            end ].
Qed.

Lemma init_run name program key octave volume tempo position :
  Note.names !! position = Some key -> 0 <= octave <= 9 -> tempo <> 0 ->
  Sample.init name program key octave volume tempo =
  Ok {| Sample.name := name;
        Sample.mid_filename := name ++ ".mid";
        Sample.tmp_filename := name ++ "-" ++ "full" ++ ".wav";
        Sample.key := key;
        Sample.octave := octave;
        Sample.note := key ++ str_int octave;
        Sample.freq :=
          (440 * Rpower 2 (IZR (key_index position octave - 46) / 12))%R;
        Sample.file :=
          {| numTracks := 1; adjust_origin := true;
             eventList := [AddTempo 0 0 tempo;
                           AddProgramChange 0 0 0 program;
                           AddNote 0 0 ((octave + 1) * 12 + Z.of_nat position)
                                   0 1 volume] |} |}.
Proof.
  intros Hi Ho Ht.
  destruct (str_int_digit _ Ho) as (d & Hs & Hd & Hv).
  destruct (note_of_table_name _ _ d Hi Hd) as [Hn _].
  unfold Sample.init, Sample.addTempo.
  rewrite (note_to_freq_names _ _ octave 440 Hi ltac:(lia)), Hs, Hn, Hv.
  destruct (Z.eqb_spec tempo 0) as [?|_]; [contradiction|]. reflexivity.
Qed.

Lemma init_key_error name program key octave volume tempo :
  ~ In key Note.names ->
  Sample.init name program key octave volume tempo = Raise (KeyError key).
Proof.
  intros H. unfold Sample.init. by rewrite (note_to_freq_other _ _ _ H).
Qed.

Lemma init_overflow name program key octave volume tempo position :
  Note.names !! position = Some key ->
  ~ pow_returns (key_index position octave - 46) ->
  Sample.init name program key octave volume tempo = Raise OverflowError.
Proof.
  intros Hi H. unfold Sample.init.
  by rewrite (note_to_freq_table _ _ _ _ Hi), freq_arith_overflow.
Qed.

Lemma init_tempo_error name program key octave volume position :
  Note.names !! position = Some key ->
  pow_returns (key_index position octave - 46) ->
  Sample.init name program key octave volume 0 = Raise ZeroDivisionError.
Proof.
  intros Hi H. unfold Sample.init.
  rewrite (note_to_freq_table _ _ _ _ Hi).
  destruct (freq_arith_returns _ 440 H) as [f ->]. reflexivity.
Qed.

Lemma init_octave_error name program key octave volume tempo position :
  Note.names !! position = Some key ->
  pow_returns (key_index position octave - 46) ->
  tempo <> 0 -> ~ 0 <= octave <= 9 ->
  Sample.init name program key octave volume tempo = Raise AttributeError.
Proof.
  intros Hi H Ht Ho.
  assert (Hk : In key Note.names)
    by (by eapply list_elem_of_In, list_elem_of_lookup_2).
  unfold Sample.init, Sample.addTempo.
  rewrite (note_to_freq_table _ _ _ _ Hi).
  destruct (freq_arith_returns _ 440 H) as [f ->].
  destruct (Z.eqb_spec tempo 0) as [?|_]; [contradiction|].
  cbn [mbind result_bind rbind].
  destruct (Note.re_match (key ++ str_int octave)) eqn:E.
  - exfalso. apply Ho, (note_of_key_octave key octave Hk).
    apply note_returns_iff. congruence.
  - apply note_raises_iff in E. by rewrite E.
Qed.

Lemma init_returns_inv name program key octave volume tempo :
  returns (Sample.init name program key octave volume tempo) ->
  In key Note.names /\ 0 <= octave <= 9 /\ tempo <> 0.
Proof.
  intros [self Hs].
  assert (Hdk : In key Note.names \/ ~ In key Note.names).
  { rewrite <- list_elem_of_In. destruct (decide (key ∈ Note.names)); auto. }
  destruct Hdk as [Hk|Hk];
    [|rewrite (init_key_error _ _ _ _ _ _ Hk) in Hs; discriminate].
  split; [exact Hk|].
  apply list_elem_of_In, list_elem_of_lookup in Hk as [i Hi].
  assert (Hdp : pow_returns (key_index i octave - 46) \/
                ~ pow_returns (key_index i octave - 46))
    by (unfold pow_returns; lia).
  destruct Hdp as [Hp|Hp];
    [|rewrite (init_overflow _ _ _ _ _ _ _ Hi Hp) in Hs; discriminate].
  destruct (Z.eq_dec tempo 0) as [->|Ht];
    [rewrite (init_tempo_error _ _ _ _ _ _ Hi Hp) in Hs; discriminate|].
  assert (Hdo : 0 <= octave <= 9 \/ ~ 0 <= octave <= 9) by lia.
  destruct Hdo as [Ho|Ho]; [done|].
  rewrite (init_octave_error _ _ _ _ _ _ _ Hi Hp Ht Ho) in Hs. discriminate.
Qed.


(** X8: in a sample that [Sample.__init__] returns, the two file names
    derive from the name, the score is the tempo, the program change and
    one note of one beat, and the frequency is the equal-tempered frequency
    of the pitch number of that note: the label of the sample is the
    frequency of what is rendered.  The pitch number is 12 (octave + 1)
    plus the position of the key in the table. *)
Theorem init_consistent :
  forall name program key octave volume tempo self,
    Sample.init name program key octave volume tempo = Ok self ->
    Sample.mid_filename self = name ++ ".mid" /\
    Sample.tmp_filename self = name ++ "-full.wav" /\
    exists position pitch,
      Note.names !! position = Some key /\
      pitch = 12 * (octave + 1) + Z.of_nat position /\
      12 <= pitch <= 131 /\
      eventList (Sample.file self) =
        [AddTempo 0 0 tempo; AddProgramChange 0 0 0 program;
         AddNote 0 0 pitch 0 1 volume] /\
      Sample.freq self = midi_to_freq pitch.
Proof.
  intros name program key octave volume tempo self Hs.
  assert (Hr : returns (Sample.init name program key octave volume tempo))
    by (by eexists).
  apply init_returns_inv in Hr. destruct Hr as (Hk & Ho & Ht).
  apply list_elem_of_In, list_elem_of_lookup in Hk as [i Hi].
  rewrite (init_run _ _ _ _ _ _ _ Hi Ho Ht) in Hs. injection Hs as <-.
  pose proof (lookup_lt_Some _ _ _ Hi) as Hlt.
  change (length Note.names) with 12%nat in Hlt.
  cbn [Sample.mid_filename Sample.tmp_filename Sample.file Sample.freq
       eventList].
  split; [done|]. split; [done|].
  exists i, (12 * (octave + 1) + Z.of_nat i).
  split; [done|]. split; [done|]. split; [lia|]. split.
  - do 4 f_equal. lia.
  - unfold midi_to_freq, key_index. do 4 f_equal. lia.
Qed.

Lemma init_consistent_witness :
  exists self,
    Sample.init "data/note-A4-P0" 0 "A" 4 100 60 = Ok self /\
    Sample.mid_filename self = "data/note-A4-P0" ++ ".mid" /\
    Sample.tmp_filename self = "data/note-A4-P0" ++ "-full.wav" /\
    exists position pitch,
      Note.names !! position = Some "A" /\
      pitch = 12 * (4 + 1) + Z.of_nat position /\
      12 <= pitch <= 131 /\
      eventList (Sample.file self) =
        [AddTempo 0 0 60; AddProgramChange 0 0 0 0;
         AddNote 0 0 pitch 0 1 100] /\
      Sample.freq self = midi_to_freq pitch.
Proof.
  assert (Ho : 0 <= 4 <= 9) by lia.
  assert (Ht : 60 <> 0) by discriminate.
  eexists. split.
  - exact (init_run "data/note-A4-P0" 0 "A" 4 100 60 9%nat eq_refl Ho Ht).
  - exact (init_consistent _ _ _ _ _ _ _
             (init_run "data/note-A4-P0" 0 "A" 4 100 60 9%nat eq_refl Ho
                       Ht)).
Defined.

(** ** Sample.transform_wav *)






(** ** One job, further *)

Lemma plan_outputs_NoDup env self offsets :
  NoDup offsets ->
  NoDup (map (fun ins => sox_output (sox_args_for env self ins))
             (augmentation_plan offsets)).
Proof.
  intros Hd. apply NoDup_ListNoDup, NoDup_map_NoDup_ForallPairs.
  - intros ins ins' Hi Hi' E. simpl in E.
    rewrite !wav_file_of_filename in E.
    apply filename_inj in E as [E1 E2];
      eauto using augmentation_plan_label, augmentation_plan_inj.
  - by apply NoDup_ListNoDup, augmentation_plan_NoDup.
Qed.

Lemma augmentation_plan_NoDup_inv offsets :
  NoDup (augmentation_plan offsets) -> NoDup offsets.
Proof.
  induction offsets as [|delta offsets IH]; [constructor|].
  rewrite augmentation_plan_cons. intros H.
  apply NoDup_cons in H as [H1 H]. apply NoDup_cons in H as [_ H].
  apply NoDup_cons in H as [_ H]. apply NoDup_cons. split; [|by apply IH].
  intros Hin. apply H1. do 2 right.
  apply list_elem_of_In, augmentation_plan_In. simpl.
  split; [tauto|by apply list_elem_of_In].
Qed.

Section JobEffects.

Variable env : Env.
Hypothesis env_contract : env_ok env.

(** X12: a job writes its MIDI file, runs the renderer once on that file,
    then runs only [sox], each time on the file the renderer was told to
    write, at 44100 Hz and 16 bits, and ends with the dot of [clean]: no
    command removes or renames a file. *)
Theorem job_data_flow :
  forall octave program key w,
    In key Note.names -> 0 <= octave <= 9 ->
    exists self w' evs st,
      let mid := job_name octave program key ++ ".mid" in
      let wav := job_name octave program key ++ "-full.wav" in
      job env octave program key w = (Ok tt, w') /\
      trace w' =
        (trace w ++
         WriteFile mid (Sample.file self) ::
         System (Fluidsynth "soundfont.sf2" mid wav) st ::
         evs ++ [PrintDot])%list /\
      commands evs = map Sox (sox_calls (commands evs)) /\
      Forall (fun a => sox_input a = wav /\ sox_rate a = 44100 /\
                       sox_bits a = 16)
             (sox_calls (commands evs)).
Proof.
  intros octave program key w Hk Ho.
  destruct (job_run env env_contract octave program key w Hk Ho)
    as (self & evs & Hs & Hrun & Hcmd & _).
  assert (Hr : returns (job_sample octave program key)) by (by eexists).
  apply init_returns_inv in Hr as [_ _].
  apply list_elem_of_In, list_elem_of_lookup in Hk as [i Hi].
  unfold job_sample in Hs.
  rewrite (init_run _ _ _ _ _ 60 _ Hi Ho ltac:(discriminate)) in Hs.
  injection Hs as <-.
  eexists _, _, evs, _. cbn zeta. split; [exact Hrun|].
  split; [reflexivity|].
  rewrite Hcmd, <- (map_map (sox_args_for env _) Sox), sox_calls_map_Sox.
  split; [reflexivity|].
  apply List.Forall_forall. intros a Ha.
  apply in_map_iff in Ha as (ins & <- & _). done.
Qed.

(** X13: whatever its outcome, a job does not touch the list of patches
    nor the generator that shuffles it, and draws from numpy's generator
    at most once; a job that completes has drawn exactly once. *)
Theorem job_frame :
  forall octave program key w r w',
    job env octave program key w = (r, w') ->
    GM_PATCHES w' = GM_PATCHES w /\
    py_random w' = py_random w /\
    (np_random w' = np_random w \/ np_random w' = S (np_random w)) /\
    (r = Ok tt -> np_random w' = S (np_random w)).
Proof.
  intros octave program key w r w' Hrun.
  destruct (job_sample octave program key) as [self|e] eqn:Hs.
  - assert (Hr : returns (job_sample octave program key)) by (by eexists).
    apply init_returns_inv in Hr as (Hk & Ho & _).
    destruct (job_run env env_contract octave program key w Hk Ho)
      as (self' & evs & _ & Hrun' & _).
    rewrite Hrun' in Hrun. injection Hrun as <- <-. cbn.
    repeat split; auto.
  - unfold job in Hrun. fold (job_name octave program key) in Hrun.
    fold (job_sample octave program key) in Hrun.
    unfold mbind, M_bind, bind, lift in Hrun. rewrite Hs in Hrun.
    injection Hrun as <- <-. repeat split; auto. discriminate.
Qed.

(** X14: the 18 files a job asks [sox] to write have pairwise distinct
    names exactly when its 5 draws are pairwise distinct: the draws are
    not deduplicated, and a value drawn twice makes the job write the same
    three files twice. *)
Theorem job_outputs_distinct :
  forall octave program key w,
    In key Note.names -> 0 <= octave <= 9 ->
    exists w' evs,
      job env octave program key w = (Ok tt, w') /\
      trace w' = (trace w ++ evs)%list /\
      (NoDup (map sox_output (sox_calls (commands evs))) <->
       NoDup (randint env (np_random w) 10 80 5)).
Proof.
  intros octave program key w Hk Ho.
  destruct (job_run env env_contract octave program key w Hk Ho)
    as (self & evs & _ & Hrun & Hcmd & _ & Hr).
  eexists _, _. split; [exact Hrun|]. split; [reflexivity|].
  cbn [commands sox_calls render_cmd].
  rewrite (plan_sox_calls _ _ _ _ Hcmd), map_map.
  set (draws := randint env (np_random w) 10 80 5) in *.
  assert (H0 : 0 ∉ draws).
  { intros H. apply list_elem_of_In, Hr in H. lia. }
  split.
  - intros H. apply NoDup_ListNoDup, NoDup_map_inv, NoDup_ListNoDup in H.
    apply augmentation_plan_NoDup_inv, NoDup_cons in H. tauto.
  - intros H. apply plan_outputs_NoDup, NoDup_cons. done.
Qed.

End JobEffects.

Lemma job_data_flow_witness :
  env_ok (example_env 0) /\ In "A" Note.names /\ 0 <= 4 <= 9 /\
  exists self w' evs st,
    let mid := job_name 4 0 "A" ++ ".mid" in
    let wav := job_name 4 0 "A" ++ "-full.wav" in
    job (example_env 0) 4 0 "A" initial_world = (Ok tt, w') /\
    trace w' =
      (trace initial_world ++
       WriteFile mid (Sample.file self) ::
       System (Fluidsynth "soundfont.sf2" mid wav) st ::
       evs ++ [PrintDot])%list /\
    commands evs = map Sox (sox_calls (commands evs)) /\
    Forall (fun a => sox_input a = wav /\ sox_rate a = 44100 /\
                     sox_bits a = 16)
           (sox_calls (commands evs)).
Proof.
  assert (H1 : In "A" Note.names) by (simpl; tauto).
  assert (H2 : 0 <= 4 <= 9) by lia.
  split; [apply example_env_ok|]. split; [exact H1|]. split; [exact H2|].
  exact (job_data_flow (example_env 0) (example_env_ok 0) 4 0 "A"
           initial_world H1 H2).
Defined.

Lemma job_frame_witness :
  env_ok (example_env 0) /\
  exists w',
    job (example_env 0) 4 78 "B" initial_world = (Ok tt, w') /\
    GM_PATCHES w' = GM_PATCHES initial_world /\
    py_random w' = py_random initial_world /\
    (np_random w' = np_random initial_world \/
     np_random w' = S (np_random initial_world)) /\
    (Ok tt = Ok tt -> np_random w' = S (np_random initial_world)).
Proof.
  assert (H1 : In "B" Note.names) by (simpl; tauto).
  assert (H2 : 0 <= 4 <= 9) by lia.
  split; [apply example_env_ok|].
  destruct (job_run (example_env 0) (example_env_ok 0) 4 78 "B"
              initial_world H1 H2) as (self & evs & _ & Hrun & _).
  eexists. split; [exact Hrun|].
  exact (job_frame (example_env 0) (example_env_ok 0) 4 78 "B"
           initial_world _ _ Hrun).
Defined.

Lemma job_outputs_distinct_witness :
  env_ok (example_env 0) /\ In "A" Note.names /\ 0 <= 4 <= 9 /\
  exists w' evs,
    job (example_env 0) 4 0 "A" initial_world = (Ok tt, w') /\
    trace w' = (trace initial_world ++ evs)%list /\
    (NoDup (map sox_output (sox_calls (commands evs))) <->
     NoDup (randint (example_env 0) (np_random initial_world) 10 80 5)).
Proof.
  assert (H1 : In "A" Note.names) by (simpl; tauto).
  assert (H2 : 0 <= 4 <= 9) by lia.
  split; [apply example_env_ok|]. split; [exact H1|]. split; [exact H2|].
  exact (job_outputs_distinct (example_env 0) (example_env_ok 0) 4 0 "A"
           initial_world H1 H2).
Defined.

(** ** The whole run, further *)

Lemma append_assoc (s t u : string) : (s ++ t) ++ u = s ++ (t ++ u).
Proof.
  induction s as [|a s IH]; [reflexivity|].
  change (String a ((s ++ t) ++ u) = String a (s ++ (t ++ u))).
  by rewrite IH.
Qed.

(** The name of a job determines its program and its key. *)
Lemma job_file_inj octave program program' key key' :
  In key Note.names -> In key' Note.names ->
  job_name octave program key ++ ".mid" =
  job_name octave program' key' ++ ".mid" ->
  program = program' /\ key = key'.
Proof.
  intros Hk Hk' E. unfold job_name in E.
  assert (Hcut : forall k p,
            rsplit "P" (("data/note-" ++ k ++ str_int octave ++ "-P" ++
                         str_int p) ++ ".mid") =
            Some ("data/note-" ++ k ++ str_int octave ++ "-",
                  str_int p ++ ".mid")).
  { intros k p. rewrite !append_assoc.
    apply (rsplit_prefix _ "data/note-"), rsplit_prefix, rsplit_prefix.
    apply (rsplit_here "P" "-").
    rewrite contains_append, contains_str_int; reflexivity. }
  apply (f_equal (rsplit "P")) in E. rewrite !Hcut in E.
  injection E as E1 E2.
  assert (Hp : program = program').
  { apply (f_equal (rsplit ".")) in E2.
    rewrite !(rsplit_here "." _ "mid") in E2 by reflexivity.
    injection E2 as E2. by apply str_int_inj. }
  split; [exact Hp|].
  assert (Hs : forall t, str_int octave ++ "-" <> String "s" t).
  { intros t Et. destruct (str_int octave) as [|c r] eqn:Eo.
    - discriminate Et.
    - injection Et as -> _.
      pose proof (contains_str_int "s" octave eq_refl) as Hc.
      rewrite Eo, contains_head in Hc. discriminate. }
  simpl in Hk, Hk'.
  destruct Hk as [<-|[<-|[<-|[<-|[<-|[<-|[<-|[<-|[<-|[<-|[<-|[<-|[]]]]]]]]]]]]];
    destruct Hk' as
      [<-|[<-|[<-|[<-|[<-|[<-|[<-|[<-|[<-|[<-|[<-|[<-|[]]]]]]]]]]]]];
    try reflexivity; exfalso; cbv [String.append] in E1;
    first [ discriminate E1
          | injection E1 as E1; first [ by apply Hs in E1
                                      | by symmetry in E1; apply Hs in E1 ] ].
Qed.

Lemma rendered_app cs cs' :
  rendered (cs ++ cs') = (rendered cs ++ rendered cs')%list.
Proof.
  induction cs as [|c cs IH]; [done|].
  destruct c; simpl; by rewrite IH.
Qed.

Lemma rendered_map_Sox (l : list SoxArgs) : rendered (map Sox l) = [].
Proof. by induction l. Qed.

(** A loop whose turn for [x] returns, keeps an invariant and renders the
    files [f x], returns, keeps the invariant and renders the files of its
    turns in order. *)
Lemma for_rendered {A} (l : list A) (body : A -> M unit)
    (P : World -> Prop) (f : A -> list string) :
  (forall x w, In x l -> P w ->
     exists w' evs, body x w = (Ok tt, w') /\ P w' /\
       trace w' = (trace w ++ evs)%list /\
       rendered (commands evs) = f x) ->
  forall w, P w ->
    exists w' evs, for_ l body w = (Ok tt, w') /\ P w' /\
      trace w' = (trace w ++ evs)%list /\
      rendered (commands evs) = flat_map f l.
Proof.
  induction l as [|x l IH]; intros Hbody w Hw.
  - exists w, []. rewrite app_nil_r. done.
  - destruct (Hbody x w (or_introl eq_refl) Hw)
      as (w1 & evs1 & Hrun1 & Hw1 & Ht1 & Hn1).
    destruct (IH (fun y w' Hy => Hbody y w' (or_intror Hy)) w1 Hw1)
      as (w2 & evs2 & Hrun2 & Hw2 & Ht2 & Hn2).
    exists w2, (evs1 ++ evs2)%list. cbn [for_].
    erewrite bind_Ok by exact Hrun1. split; [exact Hrun2|].
    split; [exact Hw2|]. split; [by rewrite Ht2, Ht1, app_assoc|].
    by rewrite commands_app, rendered_app, Hn1, Hn2.
Qed.

Lemma GM_PATCHES_get_nth i w :
  0 <= i < Z.of_nat (length (GM_PATCHES w)) ->
  GM_PATCHES_get i w = (Ok (nth (Z.to_nat i) (GM_PATCHES w) 0), w).
Proof.
  intros H. unfold GM_PATCHES_get.
  destruct (Z.ltb_spec i 0) as [?|_]; [lia|].
  destruct (Z.ltb_spec i 0) as [?|_]; [lia|].
  destruct (Z.leb_spec (Z.of_nat (length (GM_PATCHES w))) i) as [?|_]; [lia|].
  simpl. destruct (GM_PATCHES w !! Z.to_nat i) as [p|] eqn:E.
  - by rewrite (nth_lookup_Some _ _ 0 _ E).
  - apply lookup_ge_None in E. lia.
Qed.

Lemma first_15_patches (G : list Z) :
  length G = 25%nat ->
  map (fun patch => nth (Z.to_nat patch) G 0) (range 0 15) = take 15 G.
Proof.
  intros H. do 15 (destruct G as [|? G]; [discriminate H|]). reflexivity.
Qed.

Lemma GM_PATCHES_init_NoDup : NoDup GM_PATCHES_init.
Proof. apply (bool_decide_unpack _). vm_compute. exact I. Qed.

Lemma pass_files_NoDup octave programs :
  NoDup programs -> NoDup (pass_files octave programs).
Proof.
  intros Hd. unfold pass_files.
  induction Hd as [|p programs Hp Hd IH]; [constructor|].
  cbn [flat_map]. apply NoDup_app. split; [|split; [|exact IH]].
  - apply NoDup_ListNoDup, NoDup_map_NoDup_ForallPairs.
    + intros k k' Hk Hk' E. by apply job_file_inj in E as [_ E].
    + apply NoDup_ListNoDup, names_NoDup.
  - intros x Hx Hx'. apply list_elem_of_In, in_map_iff in Hx as (k & <- & Hk).
    apply list_elem_of_In, in_flat_map in Hx' as (p' & Hp' & Hx').
    apply in_map_iff in Hx' as (k' & E & Hk').
    apply job_file_inj in E as [-> _]; [|done|done].
    by apply Hp, list_elem_of_In.
Qed.

Section RunFiles.

Variable env : Env.
Hypothesis env_contract : env_ok env.

Lemma job_rendered octave program key w :
  In key Note.names -> 0 <= octave <= 9 ->
  exists w' evs,
    job env octave program key w = (Ok tt, w') /\
    GM_PATCHES w' = GM_PATCHES w /\
    trace w' = (trace w ++ evs)%list /\
    rendered (commands evs) = [job_name octave program key ++ ".mid"].
Proof.
  intros Hk Ho.
  destruct (job_run env env_contract octave program key w Hk Ho)
    as (self & evs & Hs & Hrun & Hcmd & _).
  apply list_elem_of_In, list_elem_of_lookup in Hk as [i Hi].
  unfold job_sample in Hs.
  rewrite (init_run _ _ _ _ _ 60 _ Hi Ho ltac:(discriminate)) in Hs.
  injection Hs as <-.
  eexists _, _. split; [exact Hrun|]. split; [reflexivity|].
  split; [reflexivity|].
  cbn [commands rendered render_cmd Sample.mid_filename].
  rewrite commands_app, Hcmd, rendered_app.
  by rewrite <- (map_map (sox_args_for env _) Sox), rendered_map_Sox.
Qed.

Lemma pass_rendered octave w :
  0 <= octave <= 9 -> length (GM_PATCHES w) = 25%nat ->
  exists w' evs,
    for_ (range 0 15) (fun patch =>
      program ← GM_PATCHES_get patch;
      for_ Note.names (fun key => job env octave program key)) w =
      (Ok tt, w') /\
    GM_PATCHES w' = GM_PATCHES w /\
    trace w' = (trace w ++ evs)%list /\
    rendered (commands evs) = pass_files octave (take 15 (GM_PATCHES w)).
Proof.
  intros Ho Hw.
  rewrite <- (first_15_patches _ Hw). unfold pass_files.
  rewrite flat_map_concat_map, map_map, <- flat_map_concat_map.
  apply (for_rendered _ _ (fun w' => GM_PATCHES w' = GM_PATCHES w)); [|done].
  intros patch w1 Hp Hg1. apply range_In in Hp.
  rewrite (bind_Ok _ _ _ _ _ (GM_PATCHES_get_nth patch w1
             ltac:(rewrite Hg1, Hw; lia))).
  rewrite Hg1.
  destruct (for_rendered Note.names
              (fun key => job env octave
                            (nth (Z.to_nat patch) (GM_PATCHES w) 0) key)
              (fun w' => GM_PATCHES w' = GM_PATCHES w)
              (fun key => [job_name octave
                             (nth (Z.to_nat patch) (GM_PATCHES w) 0) key
                           ++ ".mid"])) with w1
    as (w2 & evs & Hrun & Hg2 & Ht & Hn); [|done|].
  - intros key w' Hk Hg'.
    destruct (job_rendered octave (nth (Z.to_nat patch) (GM_PATCHES w) 0)
                key w' Hk Ho) as (w'' & evs & Hrun & Hg'' & Ht & Hn).
    exists w'', evs. split; [done|]. split; [congruence|done].
  - exists w2, evs. split; [done|]. split; [done|]. split; [done|].
    rewrite Hn. clear. induction Note.names as [|k l IH]; [done|].
    simpl. by rewrite IH.
Qed.

(** X15: a run of [main] on the 25 patches that completes has shuffled
    the patches once and rendered 180 files: for each of the first 15
    patches of the shuffled list, in order, one per name of the table in
    octave 4.  The 180 names are pairwise distinct, the patches are left
    as shuffled, and [sox] was run 3240 times. *)
Theorem main_renders :
  forall w',
    main env initial_world = (Ok tt, w') ->
    let patches := shuffle env 0 GM_PATCHES_init in
    GM_PATCHES w' = patches /\
    rendered (commands (trace w')) = pass_files 4 (take 15 patches) /\
    length (rendered (commands (trace w'))) = 180%nat /\
    NoDup (rendered (commands (trace w'))) /\
    length (sox_calls (commands (trace w'))) = 3240%nat.
Proof.
  intros w' Hdone.
  destruct (main_run env env_contract) as (w0 & Hmain & _ & Hsox).
  rewrite Hmain in Hdone. injection Hdone as <-.
  set (patches := shuffle env 0 GM_PATCHES_init).
  set (w1 := {| py_random := 1; np_random := 0; GM_PATCHES := patches;
                trace := [] |}).
  assert (Hperm : Permutation patches GM_PATCHES_init)
    by apply (shuffle_perm _ env_contract).
  assert (Hw1 : length (GM_PATCHES w1) = 25%nat)
    by (cbn [GM_PATCHES w1]; by rewrite (Permutation_length Hperm)).
  destruct (pass_rendered 4 w1 ltac:(lia) Hw1)
    as (w2 & evs & Hrun & Hg & Ht & Hn).
  assert (Hmain' : main env initial_world = (Ok tt, w2)).
  { unfold main. change (range 4 5) with [4]. cbn [for_].
    erewrite bind_Ok; cycle 1.
    { erewrite bind_Ok by reflexivity. exact Hrun. }
    reflexivity. }
  rewrite Hmain' in Hmain. injection Hmain as <-.
  split; [exact Hg|].
  assert (Hfiles : rendered (commands (trace w2)) =
                   pass_files 4 (take 15 patches)).
  { rewrite Ht. exact Hn. }
  assert (Hnd : NoDup (take 15 patches)).
  { apply (sublist_NoDup _ patches); [|apply sublist_take].
    rewrite Hperm. apply GM_PATCHES_init_NoDup. }
  split; [exact Hfiles|]. split; [|split; [|exact Hsox]].
  - rewrite Hfiles. unfold pass_files.
    assert (Hl : length (take 15 patches) = 15%nat).
    { rewrite length_take. change (length patches) with
        (length (GM_PATCHES w1)). rewrite Hw1. reflexivity. }
    revert Hl. generalize (take 15 patches). intros l Hl.
    do 16 (destruct l as [|? l]; try discriminate Hl). reflexivity.
  - rewrite Hfiles. by apply pass_files_NoDup.
Qed.

End RunFiles.

Lemma main_renders_witness :
  env_ok (example_env 0) /\
  exists w',
    main (example_env 0) initial_world = (Ok tt, w') /\
    GM_PATCHES w' = shuffle (example_env 0) 0 GM_PATCHES_init /\
    rendered (commands (trace w')) =
      pass_files 4 (take 15 (shuffle (example_env 0) 0 GM_PATCHES_init)) /\
    length (rendered (commands (trace w'))) = 180%nat /\
    NoDup (rendered (commands (trace w'))) /\
    length (sox_calls (commands (trace w'))) = 3240%nat.
Proof.
  split; [apply example_env_ok|].
  destruct (main_run (example_env 0) (example_env_ok 0))
    as (w' & Hmain & _).
  exists w'. split; [exact Hmain|].
  exact (main_renders (example_env 0) (example_env_ok 0) w' Hmain).
Defined.

(** ** Names across jobs *)

Lemma lsplit_here c p t :
  contains c p = false -> lsplit c (p ++ String c t) = Some (p, t).
Proof.
  induction p as [|a p IH]; intros H.
  - change (lsplit c (String c t) = Some ("", t)). cbn [lsplit].
    by rewrite Ascii.eqb_refl.
  - cbn [contains] in H. apply orb_false_iff in H as [Ha Hp].
    change (lsplit c (String a (p ++ String c t)) = Some (String a p, t)).
    cbn [lsplit]. by rewrite Ha, IH.
Qed.

Lemma contains_str_nonneg c z :
  0 <= z -> in_class "0123456789" c = false -> contains c (str_int z) = false.
Proof.
  intros Hz Hc. unfold str_int.
  destruct z as [|p|p]; [| |lia]; cbn [Z.to_int NilZero.string_of_int].
  - change Decimal.zero with (Decimal.D0 Decimal.Nil).
    cbn [NilZero.string_of_uint]. by apply contains_uint.
  - destruct (Pos.to_uint p) eqn:E; cbn [NilZero.string_of_uint];
      try (rewrite <- E; by apply contains_uint).
    cbn [contains]. rewrite orb_false_r.
    destruct (Ascii.eqb_spec "0" c) as [<-|]; [discriminate Hc|done].
Qed.

(** A job's name, followed by a hyphen, is recognised at the head of any
    string: it determines the octave, the program and the key. *)
Lemma job_name_prefix_inj octave octave' program program' key key' rest rest' :
  In key Note.names -> In key' Note.names ->
  0 <= octave <= 9 -> 0 <= octave' <= 9 -> 0 <= program -> 0 <= program' ->
  job_name octave program key ++ "-" ++ rest =
  job_name octave' program' key' ++ "-" ++ rest' ->
  octave = octave' /\ program = program' /\ key = key'.
Proof.
  intros Hk Hk' Ho Ho' Hp Hp' E. unfold job_name in E.
  assert (Hcut : forall k o p r, In k Note.names -> 0 <= p ->
            lsplit "P" (("data/note-" ++ k ++ str_int o ++ "-P" ++ str_int p)
                        ++ "-" ++ r) =
            Some ("data/note-" ++ k ++ str_int o ++ "-",
                  str_int p ++ String "-" r)).
  { intros k o p r Hin _.
    replace (("data/note-" ++ k ++ str_int o ++ "-P" ++ str_int p) ++ "-" ++ r)
      with (("data/note-" ++ k ++ str_int o ++ "-") ++
            String "P" (str_int p ++ String "-" r))
      by (rewrite !append_assoc; reflexivity).
    apply lsplit_here.
    rewrite !contains_append, contains_str_int by reflexivity.
    simpl in Hin. repeat (destruct Hin as [<-|Hin]; [reflexivity|]).
    contradiction. }
  apply (f_equal (lsplit "P")) in E. rewrite !Hcut in E by done.
  injection E as E1 E2.
  apply (f_equal (lsplit "-")) in E2.
  rewrite !(lsplit_here "-" (str_int _)) in E2
    by (by apply contains_str_nonneg).
  injection E2 as E2 _. apply str_int_inj in E2.
  destruct (str_int_digit _ Ho) as (d & Hs & Hd & Hv).
  destruct (str_int_digit _ Ho') as (d' & Hs' & Hd' & Hv').
  rewrite Hs, Hs' in E1.
  assert (d = d' /\ key = key') as [-> ->].
  { simpl in Hk, Hk'.
    destruct Hk as
      [<-|[<-|[<-|[<-|[<-|[<-|[<-|[<-|[<-|[<-|[<-|[<-|[]]]]]]]]]]]]];
      destruct Hk' as
        [<-|[<-|[<-|[<-|[<-|[<-|[<-|[<-|[<-|[<-|[<-|[<-|[]]]]]]]]]]]]];
      cbv [String.append] in E1;
      first [ injection E1 as ->; split; reflexivity
            | exfalso; discriminate E1
            | exfalso; injection E1; intros; subst;
              first [ discriminate Hd | discriminate Hd' ] ]. }
  split; [congruence|]. split; [exact E2|reflexivity].
Qed.

(** X16: artifacts of different jobs never share a name.  If two jobs
    (with table keys, octave digits and programs that are not negative)
    give a file the same name, for any shifts and suffixes and whatever the
    rendering of the frequency, they are the same job. *)
Theorem artifacts_of_distinct_jobs :
  forall env octave octave' program program' key key' self self'
         suffix suffix' delta delta',
    job_sample octave program key = Ok self ->
    job_sample octave' program' key' = Ok self' ->
    0 <= program -> 0 <= program' ->
    Sample.wav_file_of env self suffix delta =
    Sample.wav_file_of env self' suffix' delta' ->
    octave = octave' /\ program = program' /\ key = key'.
Proof.
  intros env octave octave' program program' key key' self self'
         suffix suffix' delta delta' Hs Hs' Hp Hp' E.
  assert (Hr : returns (job_sample octave program key)) by (by eexists).
  assert (Hr' : returns (job_sample octave' program' key')) by (by eexists).
  apply init_returns_inv in Hr as (Hk & Ho & _).
  apply init_returns_inv in Hr' as (Hk' & Ho' & _).
  pose proof Hk as Hi. pose proof Hk' as Hi'.
  apply list_elem_of_In, list_elem_of_lookup in Hi as [i Hi].
  apply list_elem_of_In, list_elem_of_lookup in Hi' as [i' Hi'].
  unfold job_sample in Hs, Hs'.
  rewrite (init_run _ _ _ _ _ 60 _ Hi Ho ltac:(discriminate)) in Hs.
  injection Hs as <-.
  rewrite (init_run _ _ _ _ _ 60 _ Hi' Ho' ltac:(discriminate)) in Hs'.
  injection Hs' as <-.
  unfold Sample.wav_file_of in E. cbn [Sample.name] in E.
  by apply job_name_prefix_inj in E.
Qed.

Lemma artifacts_of_distinct_jobs_witness :
  exists self,
    job_sample 4 0 "A" = Ok self /\ 0 <= 0 /\
    Sample.wav_file_of (example_env 0) self "attack" 0 =
    Sample.wav_file_of (example_env 0) self "attack" 0 /\
    4 = 4 /\ 0 = 0 /\ "A" = "A".
Proof.
  assert (Ho : 0 <= 4 <= 9) by lia.
  assert (Ht : 60 <> 0) by discriminate.
  assert (Hp : 0 <= 0) by lia.
  eexists.
  split; [exact (init_run _ 0 "A" 4 100 60 9%nat eq_refl Ho Ht)|].
  split; [exact Hp|]. split; [reflexivity|].
  exact (artifacts_of_distinct_jobs (example_env 0) 4 4 0 0 "A" "A" _ _
           "attack" "attack" 0 0
           (init_run _ 0 "A" 4 100 60 9%nat eq_refl Ho Ht)
           (init_run _ 0 "A" 4 100 60 9%nat eq_refl Ho Ht)
           Hp Hp eq_refl).
Defined.

(** ** Exit statuses *)

Lemma sox_args_for_ext env env' self ins :
  (forall x, format_3f env x = format_3f env' x) ->
  sox_args_for env self ins = sox_args_for env' self ins.
Proof.
  intros H. unfold sox_args_for, Sample.wav_file_of. by rewrite H.
Qed.

(** X17: no exit status is ever looked at.  In two worlds that agree on
    the random draws and on the rendering of frequencies, and differ in
    the exit statuses of the renderer and of [sox] in any way, a job
    returns normally and issues exactly the same commands. *)
Theorem job_ignores_exit_statuses :
  forall env env' octave program key w,
    env_ok env -> env_ok env' ->
    (forall g low high size,
       randint env g low high size = randint env' g low high size) ->
    (forall x, format_3f env x = format_3f env' x) ->
    In key Note.names -> 0 <= octave <= 9 ->
    exists w1 w2,
      job env octave program key w = (Ok tt, w1) /\
      job env' octave program key w = (Ok tt, w2) /\
      commands (trace w1) = commands (trace w2).
Proof.
  intros env env' octave program key w Henv Henv' Hrand Hfmt Hk Ho.
  destruct (job_run env Henv octave program key w Hk Ho)
    as (self & evs & Hs & Hrun & Hcmd & _).
  destruct (job_run env' Henv' octave program key w Hk Ho)
    as (self' & evs' & Hs' & Hrun' & Hcmd' & _).
  rewrite Hs in Hs'. injection Hs' as <-.
  eexists _, _. split; [exact Hrun|]. split; [exact Hrun'|].
  cbn [trace]. rewrite !commands_app. f_equal.
  cbn [commands]. f_equal. rewrite !commands_app, Hcmd, Hcmd', Hrand.
  f_equal. apply map_ext. intros ins. f_equal. by apply sox_args_for_ext.
Qed.

Lemma job_ignores_exit_statuses_witness :
  env_ok (example_env 0) /\ env_ok (example_env 1) /\
  In "A" Note.names /\ 0 <= 4 <= 9 /\
  exists w1 w2,
    job (example_env 0) 4 0 "A" initial_world = (Ok tt, w1) /\
    job (example_env 1) 4 0 "A" initial_world = (Ok tt, w2) /\
    commands (trace w1) = commands (trace w2).
Proof.
  assert (H1 : In "A" Note.names) by (simpl; tauto).
  assert (H2 : 0 <= 4 <= 9) by lia.
  split; [apply example_env_ok|]. split; [apply example_env_ok|].
  split; [exact H1|]. split; [exact H2|].
  exact (job_ignores_exit_statuses (example_env 0) (example_env 1) 4 0 "A"
           initial_world (example_env_ok 0) (example_env_ok 1)
           (fun _ _ _ _ => eq_refl) (fun _ => eq_refl) H1 H2).
Defined.
